(** * seek-tune: the fingerprint engine (server/shazam) and the indexing driver

    A shallow embedding of
      - server/shazam/config.go       (FingerprintConfig and the two presets),
      - server/shazam/spectrogram.go  (Spectrogram, LowPassFilter, Downsample,
                                       ExtractPeaks),
      - server/shazam/fingerprint.go  (Fingerprint, createAddress,
                                       FingerprintAudioChunked),
      - the command file that holds processAndSave,
    followed by the properties of the specification that concern them.

    Numbers.  Go's [int] is modelled by [Z] (no slice is long enough for a
    64-bit index to wrap), [uint32] by a [Z] reduced modulo 2^32, and
    [float64] by the exact rationals [Q]: rounding, infinities and NaN are
    outside the model.  Where Go divides a float64 by zero, [Q] gives 0;
    the divisors that can be zero (the filter constants, [WindowSize - 1]
    in the window, [DSPRatio] and [WindowSize] in ExtractPeaks) scale
    sample values and peak frequencies only, and the one theorem that
    bounds a frequency assumes [DSPRatio >= 1] (a peak off bin 0 forces
    [WindowSize >= 2]).  The concrete address scenario is rerun on IEEE
    binary64 in [Module Binary64].

    The file system and the log are not modelled: the temporary WAV file
    of a chunk is a path, and the error messages drop the formatted
    numbers. *)

From Stdlib Require Import ZArith QArith Qround Qminmax Lia Lqa String List.
From Stdlib Require Import PrimFloat FloatOps SpecFloat.
From stdpp Require Import base option list sorting gmap.

#[local] Set Warnings "-inexact-float".

Open Scope Z_scope.

(** ** Results of fallible code *)

(** A Go [error] value: [errors.New msg] or [fmt.Errorf "ctx: %v" cause]. *)
Inductive error : Type :=
  | errorNew (msg : string)
  | errorWrap (ctx : string) (cause : error).

(** What a call can do: return a value, return an error, or panic at run
    time (index out of range, integer division by zero, negative [make]).
    [Timeout] is the answer of a loop of the model whose iteration bound
    is used up; the bounds are chosen so that it is never returned
    (lemmas [Downsample_no_timeout], [Spectrogram_no_timeout],
    [ExtractPeaks_result], [Fingerprint_ok], [processChunk_no_timeout],
    [FingerprintAudioChunked_no_timeout]). *)
Inductive Result (A : Type) : Type :=
  | Ok (a : A)
  | Err (e : error)
  | Panic
  | Timeout.
Arguments Ok {A} a.
Arguments Err {A} e.
Arguments Panic {A}.
Arguments Timeout {A}.

#[global] Instance Result_ret : MRet Result := fun A a => Ok a.
#[global] Instance Result_bind : MBind Result := fun A B f r =>
  match r with
  | Ok a => f a
  | Err e => Err e
  | Panic => Panic
  | Timeout => Timeout
  end.

(** [len(s)] and [s[i]] on a slice; an index out of range panics. *)
Definition len {A : Type} (s : list A) : Z := Z.of_nat (length s).

Definition index {A : Type} (s : list A) (i : Z) : Result A :=
  if i <? 0 then Panic
  else match s !! Z.to_nat i with
       | Some a => Ok a
       | None => Panic
       end.

(** ** float64 and uint32 *)

Abbreviation float64 := Q (only parsing).

Definition float64_of_int (n : Z) : float64 := inject_Z n.

(** [x > y] and [x <= y] on float64. *)
Definition fgt (x y : float64) : bool := negb (Qle_bool x y).
Definition fle (x y : float64) : bool := Qle_bool x y.
Definition flt (x y : float64) : bool := negb (Qle_bool y x).

(** The integer part of a float64, fraction discarded (towards zero). *)
Definition Qtrunc (x : float64) : Z := Z.quot (Qnum x) (Z.pos (Qden x)).

Definition wrap32 (z : Z) : Z := z mod 2 ^ 32.

(** The conversion [uint32(x)].  Go discards the fraction; a value that
    does not fit is implementation-dependent, and is reduced modulo 2^32
    here, as the amd64 compiler does (conversion through int64). *)
Definition uint32_of_float64 (x : float64) : Z := wrap32 (Qtrunc x).

(** ** spectrogram.go: Peak *)

Record Peak : Type := mkPeak {
  Freq : float64; (* frequency in Hz *)
  Time : float64  (* time in seconds *)
}.

(** ** config.go *)

Record FingerprintConfig : Type := mkConfig {
  DSPRatio : Z;                 (* downsample factor applied to input audio *)
  WindowSize : Z;               (* FFT window size in samples *)
  HopSize : Z;                  (* samples between successive FFT frames *)
  MaxFreqHz : float64;          (* low-pass cutoff before downsampling *)
  TargetZoneSize : Z;           (* neighbouring peaks paired with each anchor *)
  FreqBands : list (Z * Z);     (* (minBin, maxBin) pairs for peak extraction *)
  ChunkDurationSec : float64    (* seconds per processing chunk (0 = whole file) *)
}.

Definition DefaultAudiobookConfig : FingerprintConfig :=
  {| DSPRatio := 8; WindowSize := 2048; HopSize := 2048; MaxFreqHz := 3000;
     TargetZoneSize := 3;
     FreqBands := [(0, 100); (100, 350); (350, 1024)];
     ChunkDurationSec := 120 |}.

Definition DefaultMusicConfig : FingerprintConfig :=
  {| DSPRatio := 4; WindowSize := 1024; HopSize := 512; MaxFreqHz := 5000;
     TargetZoneSize := 5;
     FreqBands := [(0, 10); (10, 20); (20, 40); (40, 80); (80, 160); (160, 512)];
     ChunkDurationSec := 300 |}.

(** ** spectrogram.go: LowPassFilter *)

(** Go's constant [math.Pi]. *)
Definition math_Pi : float64 :=
  3.14159265358979323846264338327950288419716939937510582097494459%Q.

(** The body of [for i, x := range input], [i] counted from the start. *)
Fixpoint LowPassFilter_loop (alpha : float64) (i : Z) (input : list float64)
    (prevOutput : float64) : list float64 :=
  match input with
  | [] => []
  | x :: rest =>
      let y := if i =? 0 then (x * alpha)%Q
               else (alpha * x + (1 - alpha) * prevOutput)%Q in
      y :: LowPassFilter_loop alpha (i + 1) rest y
  end.

Definition LowPassFilter (cutoffFrequency sampleRate : float64)
    (input : list float64) : list float64 :=
  let rc := (1 / (2 * math_Pi * cutoffFrequency))%Q in
  let dt := (1 / sampleRate)%Q in
  let alpha := (dt / (rc + dt))%Q in
  LowPassFilter_loop alpha 0 input 0%Q.

(** ** spectrogram.go: Downsample *)

(** [for j := i; j < end; j++ { sum += input[j] }], over the indices [js]. *)
Fixpoint Downsample_sum (input : list float64) (js : list Z) (sum : float64)
    : Result float64 :=
  match js with
  | [] => Ok sum
  | j :: rest => x ← index input j; Downsample_sum input rest (sum + x)%Q
  end.

(** [for i := 0; i < len(input); i += ratio { ... }], entered at [i]. *)
Fixpoint Downsample_loop (fuel : nat) (input : list float64) (ratio i : Z)
    (resampled : list float64) : Result (list float64) :=
  if i <? len input then
    match fuel with
    | O => Timeout
    | S fuel' =>
        let end_ := i + ratio in
        let end_ := if len input <? end_ then len input else end_ in
        sum ← Downsample_sum input (seqZ i (end_ - i)) 0%Q;
        Downsample_loop fuel' input ratio (i + ratio)
          (resampled ++ [(sum / float64_of_int (end_ - i))%Q])
    end
  else Ok resampled.

(** The loop advances by [ratio >= 1], so [len(input)] rounds are enough. *)
Definition Downsample (input : list float64)
    (originalSampleRate targetSampleRate : Z) : Result (list float64) :=
  if (targetSampleRate <=? 0) || (originalSampleRate <=? 0) then
    Err (errorNew "sample rates must be positive")
  else if originalSampleRate <? targetSampleRate then
    Err (errorNew
      "target sample rate must be less than or equal to original sample rate")
  else
    let ratio := originalSampleRate ÷ targetSampleRate in
    if ratio <=? 0 then
      Err (errorNew "invalid ratio calculated from sample rates")
    else Downsample_loop (length input) input ratio 0 [].

(** ** spectrogram.go: Spectrogram *)

Section Spectrogram.

(** [math.Cos], [cmplx.Abs] and the radix-2 [FFT] of the package (its
    file is not part of what is embedded here) are taken as given
    functions; a complex number is a pair. *)
Variable math_Cos : float64 -> float64.
Variable FFT : list float64 -> list (float64 * float64).
Variable cmplx_Abs : float64 * float64 -> float64.

(** The Hann window: [window[i] = 0.5 - 0.5*cos(2*pi*i/(WindowSize-1))]. *)
Definition hanning (windowSize : Z) : list float64 :=
  map (fun i =>
         let theta := (2 * math_Pi * float64_of_int i
                       / float64_of_int (windowSize - 1))%Q in
         (0.5 - 0.5 * math_Cos theta)%Q)
      (seqZ 0 windowSize).

(** One round of the framing loop: window the slice
    [downsampledSample[start:start+WindowSize]] and keep the magnitudes of
    the first half of its transform. *)
Definition Spectrogram_frame (window downsampledSample : list float64)
    (windowSize start : Z) : list float64 :=
  let frame := take (Z.to_nat windowSize)
                    (drop (Z.to_nat start) downsampledSample) in
  let frame := zip_with Qmult frame window in
  let fftResult := FFT frame in
  map cmplx_Abs (take (Z.to_nat (len fftResult ÷ 2)) fftResult).

(** [for start := 0; start+WindowSize <= len(ds); start += HopSize],
    entered at [start].  Slicing at a negative [start] panics. *)
Fixpoint Spectrogram_loop (fuel : nat) (cfg : FingerprintConfig)
    (window downsampledSample : list float64) (start : Z)
    (spectrogram : list (list float64)) : Result (list (list float64)) :=
  if start + WindowSize cfg <=? len downsampledSample then
    match fuel with
    | O => Timeout
    | S fuel' =>
        if start <? 0 then Panic
        else
          let magnitude :=
            Spectrogram_frame window downsampledSample (WindowSize cfg) start in
          Spectrogram_loop fuel' cfg window downsampledSample
            (start + HopSize cfg) (spectrogram ++ [magnitude])
    end
  else Ok spectrogram.

(** Lines 22 to 48: the window, the capacity of the result, the loop.
    [make] panics on a negative length or capacity, and the capacity
    [len(ds)/HopSize] on a zero [HopSize]. *)
Definition Spectrogram_frames (cfg : FingerprintConfig)
    (downsampledSample : list float64) : Result (list (list float64)) :=
  if WindowSize cfg <? 0 then Panic
  else
    let window := hanning (WindowSize cfg) in
    if HopSize cfg =? 0 then Panic
    else if len downsampledSample ÷ HopSize cfg <? 0 then Panic
    else Spectrogram_loop (length downsampledSample + 2) cfg window
           downsampledSample 0 [].

Definition Spectrogram (sample : list float64) (sampleRate : Z)
    (cfg : FingerprintConfig) : Result (list (list float64)) :=
  let filteredSample :=
    LowPassFilter (MaxFreqHz cfg) (float64_of_int sampleRate) sample in
  if DSPRatio cfg =? 0 then Panic
  else
    let targetRate := sampleRate ÷ DSPRatio cfg in
    match Downsample filteredSample sampleRate targetRate with
    | Err e => Err (errorWrap "couldn't downsample audio sample" e)
    | Panic => Panic
    | Timeout => Timeout
    | Ok downsampledSample => Spectrogram_frames cfg downsampledSample
    end.

End Spectrogram.

(** ** spectrogram.go: ExtractPeaks *)

Record bandMax : Type := mkBandMax {
  mag : float64;
  freqIdx : Z
}.

(** [for idx := band[0]; idx < hi; idx++ { if frame[idx] > best.mag ... }],
    over the indices [idxs]. *)
Fixpoint ExtractPeaks_best (frame : list float64) (idxs : list Z)
    (best : bandMax) : Result bandMax :=
  match idxs with
  | [] => Ok best
  | idx :: rest =>
      x ← index frame idx;
      ExtractPeaks_best frame rest
        (if fgt x (mag best) then mkBandMax x idx else best)
  end.

(** [for _, band := range cfg.FreqBands { ... }]: the maxima and their
    bins, collected band by band. *)
Fixpoint ExtractPeaks_bands (frame : list float64) (halfWindow : Z)
    (bands : list (Z * Z)) (maxMags : list float64) (freqIndices : list Z)
    : Result (list float64 * list Z) :=
  match bands with
  | [] => Ok (maxMags, freqIndices)
  | band :: rest =>
      let hi := band.2 in
      let hi := if halfWindow <? hi then halfWindow else hi in
      let hi := if len frame <? hi then len frame else hi in
      if hi <=? band.1 then
        ExtractPeaks_bands frame halfWindow rest maxMags freqIndices
      else
        best ← ExtractPeaks_best frame (seqZ band.1 (hi - band.1))
                 (mkBandMax 0 0);
        ExtractPeaks_bands frame halfWindow rest
          (maxMags ++ [mag best]) (freqIndices ++ [freqIdx best])
  end.

(** [for i, mag := range maxMags { if mag > avg { peaks = append(...) } }],
    [i] counted from the start. *)
Fixpoint ExtractPeaks_emit (frameIdx : Z) (frameDuration freqResolution : float64)
    (freqIndices : list Z) (avg : float64) (i : Z) (mags : list float64)
    (peaks : list Peak) : Result (list Peak) :=
  match mags with
  | [] => Ok peaks
  | m :: rest =>
      if fgt m avg then
        fi ← index freqIndices i;
        ExtractPeaks_emit frameIdx frameDuration freqResolution freqIndices
          avg (i + 1) rest
          (peaks ++ [{| Time := (float64_of_int frameIdx * frameDuration)%Q;
                        Freq := (float64_of_int fi * freqResolution)%Q |}])
      else
        ExtractPeaks_emit frameIdx frameDuration freqResolution freqIndices
          avg (i + 1) rest peaks
  end.

(** [for frameIdx, frame := range spectrogram { ... }]. *)
Fixpoint ExtractPeaks_loop (cfg : FingerprintConfig)
    (frameDuration freqResolution : float64) (halfWindow : Z) (frameIdx : Z)
    (frames : list (list float64)) (peaks : list Peak) : Result (list Peak) :=
  match frames with
  | [] => Ok peaks
  | frame :: rest =>
      '(maxMags, freqIndices) ←
        ExtractPeaks_bands frame halfWindow (FreqBands cfg) [] [];
      if len maxMags =? 0 then
        ExtractPeaks_loop cfg frameDuration freqResolution halfWindow
          (frameIdx + 1) rest peaks
      else
        let sum := fold_left Qplus maxMags 0%Q in
        let avg := (sum / float64_of_int (len maxMags))%Q in
        peaks ← ExtractPeaks_emit frameIdx frameDuration freqResolution
                  freqIndices avg 0 maxMags peaks;
        ExtractPeaks_loop cfg frameDuration freqResolution halfWindow
          (frameIdx + 1) rest peaks
  end.

Definition ExtractPeaks (spectrogram : list (list float64))
    (audioDuration : float64) (sampleRate : Z) (cfg : FingerprintConfig)
    : Result (list Peak) :=
  if len spectrogram <? 1 then Ok []
  else
    let effectiveSampleRate :=
      (float64_of_int sampleRate / float64_of_int (DSPRatio cfg))%Q in
    let freqResolution :=
      (effectiveSampleRate / float64_of_int (WindowSize cfg))%Q in
    let frameDuration :=
      (audioDuration / float64_of_int (len spectrogram))%Q in
    let halfWindow := WindowSize cfg ÷ 2 in
    ExtractPeaks_loop cfg frameDuration freqResolution halfWindow 0
      spectrogram [].

(** ** fingerprint.go: createAddress *)

Definition maxFreqBits : Z := 9.
Definition maxDeltaBits : Z := 14.

Definition createAddress (anchor target : Peak) : Z :=
  let anchorFreqBin := uint32_of_float64 (Freq anchor / 10)%Q in
  let targetFreqBin := uint32_of_float64 (Freq target / 10)%Q in
  let deltaMsRaw := uint32_of_float64 ((Time target - Time anchor) * 1000)%Q in
  let anchorFreqBits := Z.land anchorFreqBin (Z.shiftl 1 maxFreqBits - 1) in
  let targetFreqBits := Z.land targetFreqBin (Z.shiftl 1 maxFreqBits - 1) in
  let deltaBits := Z.land deltaMsRaw (Z.shiftl 1 maxDeltaBits - 1) in
  Z.lor (Z.lor (wrap32 (Z.shiftl anchorFreqBits 23))
               (wrap32 (Z.shiftl targetFreqBits 14)))
        deltaBits.

(** The three fields of an address, read back from their bit positions. *)
Definition anchorBin_of (address : Z) : Z := Z.land (Z.shiftr address 23) (2 ^ 9 - 1).
Definition targetBin_of (address : Z) : Z := Z.land (Z.shiftr address 14) (2 ^ 9 - 1).
Definition deltaMs_of (address : Z) : Z := Z.land address (2 ^ 14 - 1).

(** ** fingerprint.go: Fingerprint *)

(** models.Couple *)
Record Couple : Type := mkCouple {
  AnchorTimeMs : Z;
  SongID : Z
}.

(** [for j := i + 1; j < len(peaks) && j <= i+cfg.TargetZoneSize; j++],
    entered at [j]. *)
Fixpoint Fingerprint_targets (fuel : nat) (peaks : list Peak) (songID : Z)
    (cfg : FingerprintConfig) (i : Z) (anchor : Peak) (j : Z)
    (fingerprints : gmap Z Couple) : Result (gmap Z Couple) :=
  if (j <? len peaks) && (j <=? i + TargetZoneSize cfg) then
    match fuel with
    | O => Timeout
    | S fuel' =>
        target ← index peaks j;
        let address := createAddress anchor target in
        Fingerprint_targets fuel' peaks songID cfg i anchor (j + 1)
          (<[address := {| AnchorTimeMs := uint32_of_float64 (Time anchor * 1000)%Q;
                           SongID := songID |}]> fingerprints)
    end
  else Ok fingerprints.

(** [for i, anchor := range peaks { ... }]: [anchors] is what is left of
    [peaks] from index [i] on. *)
Fixpoint Fingerprint_anchors (peaks : list Peak) (songID : Z)
    (cfg : FingerprintConfig) (i : Z) (anchors : list Peak)
    (fingerprints : gmap Z Couple) : Result (gmap Z Couple) :=
  match anchors with
  | [] => Ok fingerprints
  | anchor :: rest =>
      fingerprints ← Fingerprint_targets (length peaks) peaks songID cfg i
                       anchor (i + 1) fingerprints;
      Fingerprint_anchors peaks songID cfg (i + 1) rest fingerprints
  end.

Definition Fingerprint (peaks : list Peak) (songID : Z)
    (cfg : FingerprintConfig) : Result (gmap Z Couple) :=
  Fingerprint_anchors peaks songID cfg 0 peaks ∅.

(** ** fingerprint.go: FingerprintAudioChunked *)

(** wav.WavInfo, as far as the driver reads it. *)
Record WavInfo : Type := mkWavInfo {
  LeftChannelSamples : list float64;
  SampleRate : Z;
  Duration : float64
}.

(** [chunkDur := cfg.ChunkDurationSec; if chunkDur <= 0 { chunkDur = duration }] *)
Definition chunkDuration (cfg : FingerprintConfig) (duration : float64) : float64 :=
  let chunkDur := ChunkDurationSec cfg in
  if fle chunkDur 0 then duration else chunkDur.

(** [overlap := 5.0; step := chunkDur - overlap; if step <= 0 { step = chunkDur }] *)
Definition overlap : float64 := 5%Q.

Definition chunkStep (chunkDur : float64) : float64 :=
  let step := (chunkDur - overlap)%Q in
  if fle step 0 then chunkDur else step.

Section Driver.

Variable math_Cos : float64 -> float64.
Variable FFT : list float64 -> list (float64 * float64).
Variable cmplx_Abs : float64 * float64 -> float64.

(** The transcoder and the WAV reader: ffprobe and ffmpeg behind
    wav.GetAudioDuration and wav.ExtractChunkAsWAV, and wav.ReadWavInfo;
    what they answer is given by the environment. *)
Variable GetAudioDuration : string -> Result float64.
Variable ExtractChunkAsWAV : string -> float64 -> float64 -> Result string.
Variable ReadWavInfo : string -> Result WavInfo.

(** utils.ExtendMap(dest, src): every entry of [src] is written into
    [dest], replacing the entry of an address already present. *)
Definition ExtendMap (dest src : gmap Z Couple) : gmap Z Couple := src ∪ dest.

(** The work on one chunk, from the extraction to its fingerprint map;
    each failure returns at once. *)
Definition processChunk (inputPath : string) (songID : Z)
    (cfg : FingerprintConfig) (start dur : float64) : Result (gmap Z Couple) :=
  match ExtractChunkAsWAV inputPath start dur with
  | Err e => Err (errorWrap "chunk extraction failed" e)
  | Panic => Panic
  | Timeout => Timeout
  | Ok chunkPath =>
  match ReadWavInfo chunkPath with
  | Err e => Err (errorWrap "reading chunk wav failed" e)
  | Panic => Panic
  | Timeout => Timeout
  | Ok wavInfo =>
  match Spectrogram math_Cos FFT cmplx_Abs
          (LeftChannelSamples wavInfo) (SampleRate wavInfo) cfg with
  | Err e => Err (errorWrap "spectrogram failed" e)
  | Panic => Panic
  | Timeout => Timeout
  | Ok spectro =>
      peaks ← ExtractPeaks spectro (Duration wavInfo) (SampleRate wavInfo) cfg;
      (* offset peak times so they reflect position in the full file *)
      let peaks := map (fun p => {| Freq := Freq p;
                                    Time := (Time p + start)%Q |}) peaks in
      Fingerprint peaks songID cfg
  end end end.

(** [for start := 0.0; start < duration; start += step { ... }], entered
    at [start].  [calls] records the chunks handed to the transcoder,
    as (start, dur), in order. *)
Fixpoint FingerprintAudioChunked_loop (fuel : nat) (inputPath : string)
    (songID : Z) (cfg : FingerprintConfig) (duration chunkDur step : float64)
    (start : float64) (calls : list (float64 * float64))
    (fingerprints : gmap Z Couple)
    : list (float64 * float64) * Result (gmap Z Couple) :=
  if flt start duration then
    match fuel with
    | O => (calls, Timeout)
    | S fuel' =>
        let dur := chunkDur in
        let dur := if fgt (start + dur)%Q duration
                   then (duration - start)%Q else dur in
        if fle dur 0 then (calls, Ok fingerprints)
        else
          let calls := calls ++ [(start, dur)] in
          match processChunk inputPath songID cfg start dur with
          | Ok chunkFP =>
              FingerprintAudioChunked_loop fuel' inputPath songID cfg duration
                chunkDur step (start + step)%Q calls
                (ExtendMap fingerprints chunkFP)
          | Err e => (calls, Err e)
          | Panic => (calls, Panic)
          | Timeout => (calls, Timeout)
          end
    end
  else (calls, Ok fingerprints).

(** The loop runs while [start < duration] and advances by [step > 0]:
    the ceiling of [duration/step] bounds its rounds. *)
Definition FingerprintAudioChunked (inputPath : string) (songID : Z)
    (cfg : FingerprintConfig)
    : list (float64 * float64) * Result (gmap Z Couple) :=
  match GetAudioDuration inputPath with
  | Err e => ([], Err (errorWrap "failed to get audio duration" e))
  | Panic => ([], Panic)
  | Timeout => ([], Timeout)
  | Ok duration =>
      let chunkDur := chunkDuration cfg duration in
      let step := chunkStep chunkDur in
      FingerprintAudioChunked_loop
        (Z.to_nat (Qceiling (duration / step)%Q)) inputPath songID cfg
        duration chunkDur step 0%Q [] ∅
  end.

(** ** The store, and processAndSave *)




Variable GenerateSongKey : string -> string -> string.





Variable fpConfig : FingerprintConfig.


End Driver.

(** ** createAddress on IEEE binary64 *)

Module Binary64.

(** Integer part of a binary64 value; NaN and the infinities give the
    amd64 result 0 in the low 32 bits. *)
Definition trunc (x : float) : Z :=
  match Prim2SF x with
  | S754_finite s m e =>
      let a := if 0 <=? e then Z.pos m * 2 ^ e else Z.quot (Z.pos m) (2 ^ (- e)) in
      if s then - a else a
  | _ => 0
  end.

Definition uint32_of_float64 (x : float) : Z := wrap32 (trunc x).

Record Peak : Type := mkPeak { Freq : float; Time : float }.

Definition createAddress (anchor target : Peak) : Z :=
  let anchorFreqBin := uint32_of_float64 (Freq anchor / 10)%float in
  let targetFreqBin := uint32_of_float64 (Freq target / 10)%float in
  let deltaMsRaw := uint32_of_float64 ((Time target - Time anchor) * 1000)%float in
  let anchorFreqBits := Z.land anchorFreqBin (Z.shiftl 1 maxFreqBits - 1) in
  let targetFreqBits := Z.land targetFreqBin (Z.shiftl 1 maxFreqBits - 1) in
  let deltaBits := Z.land deltaMsRaw (Z.shiftl 1 maxDeltaBits - 1) in
  Z.lor (Z.lor (wrap32 (Z.shiftl anchorFreqBits 23))
               (wrap32 (Z.shiftl targetFreqBits 14)))
        deltaBits.

End Binary64.

(** * The operations in the words of the specification *)

(** ** Decimation and framing *)

(** The decimator in the words of the specification: output sample [i] is
    the arithmetic mean of the input bucket [i*r, (i+1)*r), cut at the end
    of the input; there are ceil(len/r) buckets. *)
Definition bucket (r : Z) (input : list float64) (i : nat) : list float64 :=
  take (Z.to_nat r) (drop (i * Z.to_nat r) input).

Definition mean (b : list float64) : float64 :=
  (fold_left Qplus b 0 / inject_Z (len b))%Q.

Definition bucket_count (r : Z) (input : list float64) : nat :=
  Z.to_nat ((len input + r - 1) / r).

Definition bucket_means (r : Z) (input : list float64) : list float64 :=
  map (fun i => mean (bucket r input i)) (seq 0 (bucket_count r input)).


(** The number of frames in the words of the specification:
    floor((len - WindowSize)/HopSize) + 1, or 0 if the input is too short. *)
Definition frame_count (cfg : FingerprintConfig) (ds : list float64) : nat :=
  if WindowSize cfg <=? len ds
  then Z.to_nat ((len ds - WindowSize cfg) / HopSize cfg + 1)
  else 0%nat.

(** ** Peak extraction *)

(** The peak extractor as a function on lists.  A band of a frame is the
    list of its bins [lo, hi) with their magnitudes, [hi] clamped to
    WindowSize/2 and to the length of the frame. *)
Definition band_hi (halfWindow : Z) (frame : list float64) (band : Z * Z) : Z :=
  Z.min (Z.min band.2 halfWindow) (len frame).

Definition band_entries (halfWindow : Z) (frame : list float64) (band : Z * Z)
    : list (Z * float64) :=
  let n := Z.to_nat (band_hi halfWindow frame band - band.1) in
  zip (seqZ band.1 (Z.of_nat n)) (take n (drop (Z.to_nat band.1) frame)).

(** A band the source can scan: it is empty after clamping, or starts at a
    bin that exists (a negative bin of a non-empty band is indexed, and
    that panics). *)
Definition band_scannable (halfWindow : Z) (frame : list float64)
    (band : Z * Z) : bool :=
  (band_hi halfWindow frame band <=? band.1) || (0 <=? band.1).

Definition best_step (best : bandMax) (e : Z * float64) : bandMax :=
  if fgt e.2 (mag best) then mkBandMax e.2 e.1 else best.

(** The maximum as the source computes it: the scan starts from
    [bandMax{0, 0}]. *)
Definition scan_max (entries : list (Z * float64)) : option bandMax :=
  match entries with
  | [] => None
  | _ => Some (fold_left best_step entries (mkBandMax 0 0))
  end.

(** The maximum in the words of the specification: the first bin of
    maximum magnitude of a non-empty band. *)
Definition band_max (entries : list (Z * float64)) : option bandMax :=
  match entries with
  | [] => None
  | e :: rest => Some (fold_left best_step rest (mkBandMax e.2 e.1))
  end.

Section PeaksOfFrames.

(** How the maximum of a band is taken. *)
Variable bmax : list (Z * float64) -> option bandMax.

Variable cfg : FingerprintConfig.
Variable frameDuration freqResolution : float64.
Variable halfWindow : Z.

(** The maxima of the non-empty bands of a frame, in band order. *)
Definition frame_maxima (frame : list float64) : list bandMax :=
  omap (fun band => bmax (band_entries halfWindow frame band)) (FreqBands cfg).

(** One peak for each band whose maximum strictly exceeds the mean of the
    collected maxima. *)
Definition frame_peaks (frameIdx : Z) (frame : list float64) : list Peak :=
  let M := frame_maxima frame in
  let avg := mean (map mag M) in
  map (fun b => {| Time := (float64_of_int frameIdx * frameDuration)%Q;
                   Freq := (float64_of_int (freqIdx b) * freqResolution)%Q |})
      (filter (fun b => fgt (mag b) avg) M).

(** Frame-major: the peaks of the frames from index [frameIdx] on. *)
Fixpoint frames_peaks (frameIdx : Z) (frames : list (list float64)) : list Peak :=
  match frames with
  | [] => []
  | frame :: rest => frame_peaks frameIdx frame ++ frames_peaks (frameIdx + 1) rest
  end.

End PeaksOfFrames.

Definition peaks_of (bmax : list (Z * float64) -> option bandMax)
    (spectrogram : list (list float64)) (audioDuration : float64)
    (sampleRate : Z) (cfg : FingerprintConfig) : list Peak :=
  let fs_eff := (float64_of_int sampleRate / float64_of_int (DSPRatio cfg))%Q in
  let freq_resolution := (fs_eff / float64_of_int (WindowSize cfg))%Q in
  let frame_duration := (audioDuration / float64_of_int (len spectrogram))%Q in
  frames_peaks bmax cfg frame_duration freq_resolution (WindowSize cfg ÷ 2)
    0 spectrogram.

(** Every band of every frame can be scanned. *)
Definition scannable (spectrogram : list (list float64))
    (cfg : FingerprintConfig) : bool :=
  forallb (fun frame =>
             forallb (band_scannable (WindowSize cfg ÷ 2) frame) (FreqBands cfg))
          spectrogram.

(** Time order of two peaks. *)
Definition time_le (p q : Peak) : Prop := (Time p <= Time q)%Q.


(** ** Fingerprinting *)

(** The fingerprinter in the words of the specification: for each index
    [i] and each [j] in [i+1, min(i+Z, len-1)], store the couple of the
    anchor under the address of the pair, a later store replacing an
    earlier one. *)
Definition target_indices (n zone i : Z) : list Z :=
  seqZ (i + 1) (Z.min (i + zone) (n - 1) - i).

Definition anchor_target_pairs (n zone : Z) : list (Z * Z) :=
  i ← seqZ 0 n; (fun j => (i, j)) <$> target_indices n zone i.

Definition store_pair (peaks : list Peak) (songID : Z)
    (fingerprints : gmap Z Couple) (ij : Z * Z) : gmap Z Couple :=
  match peaks !! Z.to_nat ij.1, peaks !! Z.to_nat ij.2 with
  | Some anchor, Some target =>
      <[createAddress anchor target :=
          {| AnchorTimeMs := uint32_of_float64 (Time anchor * 1000)%Q;
             SongID := songID |}]> fingerprints
  | _, _ => fingerprints
  end.

Definition fingerprints_of (peaks : list Peak) (songID zone : Z) : gmap Z Couple :=
  foldl (store_pair peaks songID) ∅ (anchor_target_pairs (len peaks) zone).

(** ** The chunk schedule *)

(** The chunk schedule in the words of the specification, as amended by
    the source: the step is [C - O] when the chunk is longer than the
    overlap and [C] otherwise; the formula of the specification is
    [max (C - O) C]. *)
Definition step_of (C : float64) : float64 :=
  if Qlt_le_dec overlap C then (C - overlap)%Q else C.

Definition step_by_max (C : float64) : float64 := Qmax (C - overlap)%Q C.

(** The chunks handed to the transcoder start at [start], [start + step],
    [start + step + step], ... *)
Fixpoint chunk_chain (step start : float64) (calls : list (float64 * float64))
    : Prop :=
  match calls with
  | [] => True
  | c :: rest => c.1 = start /\ chunk_chain step (start + step)%Q rest
  end.

(** Every chunk of [calls] was processed to a map; the run stopped at the
    last chunk of [calls], whose failure is the answer [r]. *)
Definition all_Ok {A : Type} (f : float64 -> float64 -> Result A)
    (calls : list (float64 * float64)) : Prop :=
  Forall (fun c => exists m, f c.1 c.2 = Ok m) calls.

Definition aborted_at {A : Type} (f : float64 -> float64 -> Result A)
    (calls : list (float64 * float64)) (r : Result A) : Prop :=
  exists init c, calls = init ++ [c] /\ all_Ok f init /\
                 f c.1 c.2 = r /\ forall m, r <> Ok m.

(** ** Inputs on which the theorems are run *)

(** A config with two bands of two bins and a spectrogram of three
    frames, on which the theorems are run. *)
Definition two_band_config : FingerprintConfig :=
  {| DSPRatio := 1; WindowSize := 8; HopSize := 8; MaxFreqHz := 3;
     TargetZoneSize := 2; FreqBands := [(0, 2); (2, 4)];
     ChunkDurationSec := 0 |}.

Definition three_frames : list (list float64) :=
  [[0; 1; 0; 0]; [3; 0; 2; 0]; [3; 0; 2; 3]]%Q.

(** A run of the driver and of the indexing on a 200-second file whose
    chunks decode to no samples, and one on a file the transcoder cannot
    decode. *)
Definition no_Cos (x : float64) : float64 := x.
Definition no_FFT (frame : list float64) : list (float64 * float64) :=
  map (fun x => (x, 0%Q)) frame.
Definition no_Abs (z : float64 * float64) : float64 := z.1.
Definition probe_200 (inputPath : string) : Result float64 := Ok 200%Q.
Definition extract_any (inputPath : string) (start dur : float64) : Result string :=
  Ok "tmp/chunk.wav"%string.
Definition read_silence (chunkPath : string) : Result WavInfo :=
  Ok (mkWavInfo [] 44100 0).


(** * Further definitions *)

(** ** Fingerprinting: the address a pair of indices is stored under *)

Definition pair_address (peaks : list Peak) (ij : Z * Z) : option Z :=
  match peaks !! Z.to_nat ij.1, peaks !! Z.to_nat ij.2 with
  | Some anchor, Some target => Some (createAddress anchor target)
  | _, _ => None
  end.


(** Three peaks on one frequency, one second apart. *)
Definition same_tone_peaks : list Peak := [mkPeak 100 0; mkPeak 100 1; mkPeak 100 2].

(** ** The driver: the duration of the chunk asked for at [start] *)

(** [dur := chunkDur; if start+dur > duration { dur = duration - start }] *)
Definition chunk_dur_at (duration chunkDur start : float64) : float64 :=
  if fgt (start + chunkDur)%Q duration then (duration - start)%Q else chunkDur.

(** ** fingerprint.go: FingerprintAudio *)

Section DriverWrappers.

Variable math_Cos : float64 -> float64.
Variable FFT : list float64 -> list (float64 * float64).
Variable cmplx_Abs : float64 * float64 -> float64.
Variable GetAudioDuration : string -> Result float64.
Variable ExtractChunkAsWAV : string -> float64 -> float64 -> Result string.
Variable ReadWavInfo : string -> Result WavInfo.

(** [return FingerprintAudioChunked(songFilePath, songID, DefaultMusicConfig())] *)
Definition FingerprintAudio (songFilePath : string) (songID : Z)
    : list (float64 * float64) * Result (gmap Z Couple) :=
  FingerprintAudioChunked math_Cos FFT cmplx_Abs GetAudioDuration
    ExtractChunkAsWAV ReadWavInfo songFilePath songID DefaultMusicConfig.

End DriverWrappers.

(** ** Further inputs on which the theorems are run *)

(** A probe that reports an empty file; a config with two bands of one
    bin on windows of four samples that advance by one; and a WAV reader
    that returns five samples, an impulse first. *)
Definition probe_empty (inputPath : string) : Result float64 := Ok 0%Q.
Definition tone_config : FingerprintConfig :=
  mkConfig 1 4 1 3 1 [(0, 1); (1, 2)] 120.
Definition read_tone (chunkPath : string) : Result WavInfo :=
  Ok (mkWavInfo [1; 0; 0; 0; 0]%Q 4 2).


(** * Properties *)

(** ** Address packing *)

(** C1 (as amended): for the anchor (443.2 Hz, 1.000 s) and the target
    (880.0 Hz, 1.250 s) the address fields are anchor_bin = 44,
    target_bin = 88 and delta_t = 250 ms, and the packed address is
    (44<<23)|(88<<14)|250, which is 370,540,794; the binary64 computation
    gives the same address. *)
Theorem createAddress_scenario_S1 :
  let anchor := mkPeak 443.2 1.000 in
  let target := mkPeak 880.0 1.250 in
  uint32_of_float64 (Freq anchor / 10)%Q = 44 /\
  uint32_of_float64 (Freq target / 10)%Q = 88 /\
  uint32_of_float64 ((Time target - Time anchor) * 1000)%Q = 250 /\
  anchorBin_of (createAddress anchor target) = 44 /\
  targetBin_of (createAddress anchor target) = 88 /\
  deltaMs_of (createAddress anchor target) = 250 /\
  createAddress anchor target
    = Z.lor (Z.lor (Z.shiftl 44 23) (Z.shiftl 88 14)) 250 /\
  createAddress anchor target = 370540794 /\
  Binary64.createAddress (Binary64.mkPeak 443.2 1.000) (Binary64.mkPeak 880.0 1.250)
    = 370540794.
Proof. vm_compute. repeat split; reflexivity. Qed.

(** C1 as stated fails: the address of the scenario is not 369,999,610. *)
Lemma createAddress_scenario_S1_not_369999610 :
  createAddress (mkPeak 443.2 1.000) (mkPeak 880.0 1.250) <> 369999610.
Proof. vm_compute. discriminate. Qed.


(** ** The address: bit fields *)









(** ** Downsample *)

Lemma bind_Ok {A B : Type} (a : A) (f : A -> Result B) : (Ok a ≫= f) = f a.
Proof. reflexivity. Qed.

Lemma index_Ok {A : Type} (s : list A) (i : Z) (a : A) :
  0 <= i -> s !! Z.to_nat i = Some a -> index s i = Ok a.
Proof.
  intros Hi Hs. unfold index.
  destruct (Z.ltb_spec i 0) as [Hlt | _]; [lia |]. now rewrite Hs.
Qed.

Lemma index_inv {A : Type} (s : list A) (i : Z) (a : A) :
  index s i = Ok a -> 0 <= i /\ s !! Z.to_nat i = Some a.
Proof.
  unfold index. destruct (Z.ltb_spec i 0) as [Hlt | Hge]; [discriminate |].
  destruct (s !! Z.to_nat i) eqn:E; [| discriminate].
  intros [= ->]. split; [lia | reflexivity].
Qed.

Lemma seqZ_S (m : Z) (n : nat) :
  seqZ m (Z.of_nat (S n)) = m :: seqZ (m + 1) (Z.of_nat n).
Proof.
  rewrite seqZ_cons by lia. f_equal. f_equal; lia.
Qed.

Lemma Downsample_sum_range (input : list float64) (n : nat) :
  forall (i : Z) (sum : float64),
    0 <= i -> i + Z.of_nat n <= len input ->
    Downsample_sum input (seqZ i (Z.of_nat n)) sum
    = Ok (fold_left Qplus (take n (drop (Z.to_nat i) input)) sum).
Proof.
  unfold len. induction n as [| n IH]; intros i sum Hi Hle.
  - reflexivity.
  - rewrite seqZ_S. cbn [Downsample_sum].
    destruct (lookup_lt_is_Some_2 input (Z.to_nat i)) as [x Hx]; [lia |].
    rewrite (index_Ok _ _ _ Hi Hx), bind_Ok.
    rewrite IH by lia.
    rewrite (drop_S _ _ _ Hx). cbn [take fold_left].
    replace (Z.to_nat (i + 1)) with (S (Z.to_nat i)) by lia. reflexivity.
Qed.

Lemma Downsample_loop_means (input : list float64) (r : Z) (Hr : 1 <= r) :
  forall (m k fuel : nat) (resampled : list float64),
    (k + m = bucket_count r input)%nat -> (m <= fuel)%nat ->
    Downsample_loop fuel input r (Z.of_nat k * r) resampled
    = Ok (resampled ++ map (fun i => mean (bucket r input i)) (seq k m)).
Proof.
  pose proof (Z.div_mod (len input + r - 1) r ltac:(lia)) as Hdm.
  pose proof (Z.mod_pos_bound (len input + r - 1) r ltac:(lia)) as Hmod.
  assert (0 <= len input) as HL by (unfold len; lia).
  assert (0 <= (len input + r - 1) / r) as HN by (apply Z.div_pos; lia).
  unfold bucket_count.
  induction m as [| m IH]; intros k fuel resampled Hk Hfuel.
  - destruct fuel; cbn [Downsample_loop];
      (destruct (Z.ltb_spec (Z.of_nat k * r) (len input)) as [Hlt | _];
       [exfalso; nia | cbn; now rewrite app_nil_r]).
  - destruct fuel as [| fuel]; [lia |]. cbn [Downsample_loop].
    destruct (Z.ltb_spec (Z.of_nat k * r) (len input)) as [Hlt | Hge];
      [| exfalso; nia].
    set (i := Z.of_nat k * r) in *.
    set (end_ := if len input <? i + r then len input else i + r).
    assert (i <= end_ <= len input /\ end_ <= i + r) as Hend
      by (subst end_; destruct (Z.ltb_spec (len input) (i + r)); lia).
    replace (end_ - i) with (Z.of_nat (Z.to_nat (end_ - i))) by lia.
    rewrite Downsample_sum_range by lia. rewrite bind_Ok.
    replace (i + r) with (Z.of_nat (S k) * r) by (subst i; lia).
    rewrite IH by lia. f_equal. rewrite <- app_assoc. f_equal.
    cbn [seq map app]. f_equal.
    assert (take (Z.to_nat (end_ - i)) (drop (Z.to_nat i) input)
            = bucket r input k) as Hb.
    { unfold bucket. replace (k * Z.to_nat r)%nat with (Z.to_nat i) by (subst i; nia).
      subst end_. destruct (Z.ltb_spec (len input) (i + r)) as [Hc | Hc].
      - rewrite !take_ge; [reflexivity | |]; rewrite length_drop; unfold len in *; lia.
      - f_equal. lia. }
    rewrite Hb. unfold mean. f_equal. f_equal. f_equal.
    rewrite <- Hb. unfold len. rewrite length_take, length_drop.
    unfold len in *. lia.
Qed.

Lemma Downsample_means (input : list float64) (originalSampleRate targetSampleRate : Z) :
  0 < targetSampleRate -> 0 < originalSampleRate ->
  targetSampleRate <= originalSampleRate ->
  Downsample input originalSampleRate targetSampleRate
  = Ok (bucket_means (originalSampleRate / targetSampleRate) input).
Proof.
  intros Ht Ho Hle. unfold Downsample.
  destruct (Z.leb_spec targetSampleRate 0); [lia |].
  destruct (Z.leb_spec originalSampleRate 0); [lia |]. cbn [orb].
  destruct (Z.ltb_spec originalSampleRate targetSampleRate); [lia |].
  rewrite Z.quot_div_nonneg by lia.
  set (r := originalSampleRate / targetSampleRate).
  assert (1 <= r) as Hr by (subst r; apply Z.div_le_lower_bound; lia).
  destruct (Z.leb_spec r 0); [lia |].
  change 0 with (Z.of_nat 0 * r) at 1.
  rewrite (Downsample_loop_means input r Hr (bucket_count r input) 0); [reflexivity | lia |].
  unfold bucket_count, len.
  assert ((Z.of_nat (length input) + r - 1) / r <= Z.of_nat (length input)); [| lia].
  destruct (length input) as [| n].
  - rewrite Z.div_small; lia.
  - apply Z.div_le_upper_bound; nia.
Qed.

(** Downsample returns a list or an error: it neither panics nor uses up
    its loop bound. *)
Lemma Downsample_no_timeout (input : list float64) (o t : Z) :
  Downsample input o t <> Timeout /\ Downsample input o t <> Panic.
Proof.
  destruct (Z.leb_spec t 0) as [Ht | Ht];
    [unfold Downsample; destruct (Z.leb_spec t 0); [split; discriminate | lia] |].
  destruct (Z.leb_spec o 0) as [Ho | Ho];
    [unfold Downsample; destruct (Z.leb_spec t 0); [lia |];
     destruct (Z.leb_spec o 0); [split; discriminate | lia] |].
  destruct (Z.ltb_spec o t) as [Hot | Hot].
  - unfold Downsample. destruct (Z.leb_spec t 0); [lia |].
    destruct (Z.leb_spec o 0); [lia |]. cbn [orb].
    destruct (Z.ltb_spec o t); [split; discriminate | lia].
  - rewrite Downsample_means by lia. split; discriminate.
Qed.

(** C5: for positive sample rates with target <= original, Downsample
    with r = floor(original/target) returns the means of the consecutive
    buckets [i*r, (i+1)*r) of its input, the last one possibly shorter;
    [1,2,3,4,5,6,7] at ratio 3 gives [2, 5, 7]. *)
Theorem Downsample_bucket_means :
  (forall (input : list float64) (originalSampleRate targetSampleRate : Z),
      0 < targetSampleRate -> 0 < originalSampleRate ->
      targetSampleRate <= originalSampleRate ->
      let r := originalSampleRate / targetSampleRate in
      exists out,
        Downsample input originalSampleRate targetSampleRate = Ok out /\
        length out = Z.to_nat ((len input + r - 1) / r) /\
        forall i, (i < length out)%nat ->
          out !! i = Some (mean (take (Z.to_nat r) (drop (i * Z.to_nat r) input)))) /\
  (exists out,
      Downsample [1; 2; 3; 4; 5; 6; 7]%Q 3 1 = Ok out /\
      Forall2 Qeq out [2.0; 5.0; 7.0]%Q).
Proof.
  split.
  - intros input o t Ht Ho Hle r.
    exists (bucket_means r input). split; [now apply Downsample_means |].
    unfold bucket_means, bucket_count. rewrite length_map, length_seq.
    split; [reflexivity |]. intros i Hi.
    rewrite list_lookup_fmap, lookup_seq_lt by exact Hi. reflexivity.
  - eexists. split; [vm_compute; reflexivity |].
    repeat constructor.
Qed.

(** C5, witness: 44100 Hz decimated to 5512 Hz. *)
Lemma Downsample_bucket_means_witness :
  exists out, Downsample [1; 2; 3; 4; 5; 6; 7; 8; 9]%Q 44100 5512 = Ok out /\
              length out = 2%nat.
Proof.
  destruct (proj1 Downsample_bucket_means [1; 2; 3; 4; 5; 6; 7; 8; 9]%Q 44100 5512)
    as (out & H1 & H2 & _); [lia | lia | lia |].
  exists out. split; [exact H1 | exact H2].
Defined.


(** ** Spectrogram: the number of frames *)

Section SpectrogramFacts.

Variable math_Cos : float64 -> float64.
Variable FFT : list float64 -> list (float64 * float64).
Variable cmplx_Abs : float64 * float64 -> float64.

Lemma Spectrogram_loop_frames (cfg : FingerprintConfig)
    (window ds : list float64) :
  0 <= WindowSize cfg -> 1 <= HopSize cfg ->
  forall (m k fuel : nat) (spectrogram : list (list float64)),
    (k + m = frame_count cfg ds)%nat -> (m <= fuel)%nat ->
    Spectrogram_loop FFT cmplx_Abs fuel cfg window ds
      (Z.of_nat k * HopSize cfg) spectrogram
    = Ok (spectrogram ++
          map (fun k => Spectrogram_frame FFT cmplx_Abs window ds (WindowSize cfg)
                          (Z.of_nat k * HopSize cfg))
              (seq k m)).
Proof.
  intros HW HH. unfold frame_count.
  set (W := WindowSize cfg) in *. set (H := HopSize cfg) in *.
  assert (0 <= len ds) as HL by (unfold len; lia).
  pose proof (Z.div_mod (len ds - W) H ltac:(lia)) as Hdm.
  pose proof (Z.mod_pos_bound (len ds - W) H ltac:(lia)) as Hmod.
  induction m as [| m IH]; intros k fuel spectrogram Hk Hfuel.
  - assert (len ds < Z.of_nat k * H + W) as Hout.
    { destruct (Z.leb_spec W (len ds)) as [Hle | Hgt]; [| nia].
      assert (0 <= (len ds - W) / H) by (apply Z.div_pos; lia). nia. }
    destruct fuel; cbn [Spectrogram_loop]; fold W; fold H;
      (destruct (Z.leb_spec (Z.of_nat k * H + W) (len ds)); [lia |]);
      cbn [seq map]; now rewrite app_nil_r.
  - destruct fuel as [| fuel]; [lia |].
    destruct (Z.leb_spec W (len ds)) as [Hle | Hgt]; [| lia].
    assert (0 <= (len ds - W) / H) by (apply Z.div_pos; lia).
    assert (Z.of_nat k * H + W <= len ds) as Hin by nia.
    cbn [Spectrogram_loop]. fold W; fold H.
    destruct (Z.leb_spec (Z.of_nat k * H + W) (len ds)); [| lia].
    destruct (Z.ltb_spec (Z.of_nat k * H) 0); [nia |].
    replace (Z.of_nat k * H + H) with (Z.of_nat (S k) * H) by lia.
    rewrite IH by lia. rewrite <- app_assoc. reflexivity.
Qed.

Lemma Spectrogram_frames_count (cfg : FingerprintConfig) (ds : list float64) :
  0 <= WindowSize cfg -> 1 <= HopSize cfg ->
  Spectrogram_frames math_Cos FFT cmplx_Abs cfg ds
  = Ok (map (fun k => Spectrogram_frame FFT cmplx_Abs (hanning math_Cos (WindowSize cfg))
                        ds (WindowSize cfg) (Z.of_nat k * HopSize cfg))
            (seq 0 (frame_count cfg ds))).
Proof.
  intros HW HH. unfold Spectrogram_frames.
  destruct (Z.ltb_spec (WindowSize cfg) 0); [lia |].
  destruct (Z.eqb_spec (HopSize cfg) 0); [lia |].
  assert (0 <= len ds) as HL by (unfold len; lia).
  destruct (Z.ltb_spec (len ds ÷ HopSize cfg) 0) as [Hneg | _].
  { rewrite Z.quot_div_nonneg in Hneg by lia.
    pose proof (Z.div_pos (len ds) (HopSize cfg)). lia. }
  change 0 with (Z.of_nat 0 * HopSize cfg) at 1.
  rewrite (Spectrogram_loop_frames cfg _ ds HW HH (frame_count cfg ds) 0);
    [reflexivity | lia |].
  unfold frame_count.
  destruct (Z.leb_spec (WindowSize cfg) (len ds)); [| lia].
  assert ((len ds - WindowSize cfg) / HopSize cfg <= len ds - WindowSize cfg).
  { apply Z.div_le_upper_bound; nia. }
  unfold len in *. lia.
Qed.

(** The framing never uses up its loop bound, whatever the config. *)
Lemma Spectrogram_frames_no_timeout (cfg : FingerprintConfig) (ds : list float64) :
  Spectrogram_frames math_Cos FFT cmplx_Abs cfg ds <> Timeout.
Proof.
  destruct (Z.ltb_spec (WindowSize cfg) 0) as [HW | HW];
    [unfold Spectrogram_frames; destruct (Z.ltb_spec (WindowSize cfg) 0);
     [discriminate | lia] |].
  destruct (Z.le_gt_cases 1 (HopSize cfg)) as [HH | HH].
  { now rewrite Spectrogram_frames_count. }
  unfold Spectrogram_frames.
  destruct (Z.ltb_spec (WindowSize cfg) 0); [lia |].
  destruct (Z.eqb_spec (HopSize cfg) 0); [discriminate |].
  destruct (Z.ltb_spec (len ds ÷ HopSize cfg) 0); [discriminate |].
  replace (length ds + 2)%nat with (S (S (length ds))) by lia.
  cbn [Spectrogram_loop].
  destruct (Z.leb_spec (0 + WindowSize cfg) (len ds)); [| discriminate].
  cbn [Z.ltb Z.compare].
  destruct (Z.leb_spec (0 + HopSize cfg + WindowSize cfg) (len ds)); [| discriminate].
  destruct (Z.ltb_spec (0 + HopSize cfg) 0); [discriminate | lia].
Qed.

Lemma Spectrogram_no_timeout (sample : list float64) (sampleRate : Z)
    (cfg : FingerprintConfig) :
  Spectrogram math_Cos FFT cmplx_Abs sample sampleRate cfg <> Timeout.
Proof.
  unfold Spectrogram. destruct (DSPRatio cfg =? 0); [discriminate |].
  match goal with |- context [Downsample ?a ?b ?c] =>
    pose proof (Downsample_no_timeout a b c) as [Ht _];
    destruct (Downsample a b c) end;
    [apply Spectrogram_frames_no_timeout | discriminate | discriminate | congruence].
Qed.

End SpectrogramFacts.




(** ** ExtractPeaks *)

Lemma fgt_true (x y : float64) : fgt x y = true <-> (y < x)%Q.
Proof.
  unfold fgt. rewrite negb_true_iff. split.
  - intros H. apply Qnot_le_lt. intros Hle.
    apply Qle_bool_iff in Hle. congruence.
  - intros H. destruct (Qle_bool x y) eqn:E; [| reflexivity].
    apply Qle_bool_iff in E. exfalso. exact (Qlt_not_le _ _ H E).
Qed.

Lemma fgt_false (x y : float64) : fgt x y = false <-> (x <= y)%Q.
Proof.
  unfold fgt. rewrite negb_false_iff. apply Qle_bool_iff.
Qed.

Lemma fle_true (x y : float64) : fle x y = true <-> (x <= y)%Q.
Proof. apply Qle_bool_iff. Qed.

Lemma fle_false (x y : float64) : fle x y = false <-> (y < x)%Q.
Proof.
  unfold fle. split.
  - intros H. apply Qnot_le_lt. intros Hle. apply Qle_bool_iff in Hle. congruence.
  - intros H. destruct (Qle_bool x y) eqn:E; [| reflexivity].
    apply Qle_bool_iff in E. exfalso. exact (Qlt_not_le _ _ H E).
Qed.

Lemma flt_true (x y : float64) : flt x y = true <-> (x < y)%Q.
Proof. apply (fgt_true y x). Qed.

Lemma flt_false (x y : float64) : flt x y = false <-> (y <= x)%Q.
Proof. apply (fgt_false y x). Qed.

(** The scan of the bins [lo, lo+n) of a frame. *)
Lemma ExtractPeaks_best_scan (frame : list float64) (n : nat) :
  forall (lo : Z) (best : bandMax),
    0 <= lo -> lo + Z.of_nat n <= len frame ->
    ExtractPeaks_best frame (seqZ lo (Z.of_nat n)) best
    = Ok (fold_left best_step
            (zip (seqZ lo (Z.of_nat n)) (take n (drop (Z.to_nat lo) frame))) best).
Proof.
  unfold len. induction n as [| n IH]; intros lo best Hlo Hle.
  - reflexivity.
  - rewrite seqZ_S. cbn [ExtractPeaks_best].
    destruct (lookup_lt_is_Some_2 frame (Z.to_nat lo)) as [x Hx]; [lia |].
    rewrite (index_Ok _ _ _ Hlo Hx), bind_Ok.
    rewrite IH by lia.
    rewrite (drop_S _ _ _ Hx). cbn [take zip zip_with fold_left].
    replace (Z.to_nat (lo + 1)) with (S (Z.to_nat lo)) by lia. reflexivity.
Qed.

Lemma ExtractPeaks_best_negative (frame : list float64) (n : nat) (lo : Z)
    (best : bandMax) :
  lo < 0 -> ExtractPeaks_best frame (seqZ lo (Z.of_nat (S n))) best = Panic.
Proof.
  intros Hlo. rewrite seqZ_S. cbn [ExtractPeaks_best]. unfold index.
  destruct (Z.ltb_spec lo 0); [reflexivity | lia].
Qed.

Lemma band_hi_clamp (halfWindow : Z) (frame : list float64) (band : Z * Z) :
  (let hi := band.2 in
   let hi := if halfWindow <? hi then halfWindow else hi in
   if len frame <? hi then len frame else hi) = band_hi halfWindow frame band.
Proof.
  unfold band_hi. cbv zeta.
  destruct (Z.ltb_spec halfWindow band.2);
    match goal with |- context [len frame <? ?h] =>
      destruct (Z.ltb_spec (len frame) h) end; lia.
Qed.

Lemma band_entries_nil (halfWindow : Z) (frame : list float64) (band : Z * Z) :
  band_hi halfWindow frame band <= band.1 -> band_entries halfWindow frame band = [].
Proof.
  intros H. unfold band_entries.
  replace (Z.to_nat (band_hi halfWindow frame band - band.1)) with 0%nat by lia.
  reflexivity.
Qed.

Lemma band_entries_cons (halfWindow : Z) (frame : list float64) (band : Z * Z) :
  0 <= band.1 -> band.1 < band_hi halfWindow frame band ->
  exists e rest, band_entries halfWindow frame band = e :: rest.
Proof.
  intros Hlo Hlt. unfold band_entries.
  assert (band_hi halfWindow frame band <= len frame) as Hlen by (unfold band_hi; lia).
  destruct (Z.to_nat (band_hi halfWindow frame band - band.1)) as [| n] eqn:En; [lia |].
  rewrite seqZ_S.
  destruct (lookup_lt_is_Some_2 frame (Z.to_nat band.1)) as [x Hx];
    [unfold len in Hlen; lia |].
  rewrite (drop_S _ _ _ Hx). cbn. eauto.
Qed.

Lemma ExtractPeaks_bands_result (frame : list float64) (halfWindow : Z)
    (bands : list (Z * Z)) :
  forall (maxMags : list float64) (freqIndices : list Z),
    ExtractPeaks_bands frame halfWindow bands maxMags freqIndices
    = if forallb (band_scannable halfWindow frame) bands
      then let M := omap (fun band => scan_max (band_entries halfWindow frame band))
                         bands in
           Ok (maxMags ++ map mag M, freqIndices ++ map freqIdx M)
      else Panic.
Proof.
  induction bands as [| band bands IH]; intros maxMags freqIndices.
  - cbn. now rewrite !app_nil_r.
  - cbn [ExtractPeaks_bands forallb omap list_omap].
    rewrite band_hi_clamp. unfold band_scannable at 1.
    destruct (Z.leb_spec (band_hi halfWindow frame band) band.1) as [Hle | Hlt].
    + cbn [orb andb]. rewrite IH, band_entries_nil by exact Hle. reflexivity.
    + cbn [orb].
      set (n := Z.to_nat (band_hi halfWindow frame band - band.1)).
      replace (band_hi halfWindow frame band - band.1) with (Z.of_nat n) by lia.
      destruct (Z.leb_spec 0 band.1) as [Hlo | Hneg].
      * cbn [andb].
        assert (band_hi halfWindow frame band <= len frame) by (unfold band_hi; lia).
        rewrite ExtractPeaks_best_scan by lia. rewrite bind_Ok, IH.
        change (zip (seqZ band.1 (Z.of_nat n)) (take n (drop (Z.to_nat band.1) frame)))
          with (band_entries halfWindow frame band).
        assert (scan_max (band_entries halfWindow frame band)
                = Some (fold_left best_step (band_entries halfWindow frame band)
                          (mkBandMax 0 0))) as Hs.
        { destruct (band_entries_cons halfWindow frame band Hlo Hlt) as (e & rest & He).
          now rewrite He. }
        rewrite Hs.
        destruct (forallb (band_scannable halfWindow frame) bands); [| reflexivity].
        cbn [map]. rewrite <- !app_assoc. reflexivity.
      * cbn [andb]. destruct n as [| n'] eqn:En; [lia |].
        now rewrite ExtractPeaks_best_negative.
Qed.

Lemma ExtractPeaks_emit_result (frameIdx : Z) (frameDuration freqResolution avg : float64)
    (cur : list bandMax) :
  forall (pre : list bandMax) (peaks : list Peak),
    ExtractPeaks_emit frameIdx frameDuration freqResolution
      (map freqIdx (pre ++ cur)) avg (len pre) (map mag cur) peaks
    = Ok (peaks ++
          map (fun b => {| Time := (float64_of_int frameIdx * frameDuration)%Q;
                           Freq := (float64_of_int (freqIdx b) * freqResolution)%Q |})
              (filter (fun b => fgt (mag b) avg) cur)).
Proof.
  induction cur as [| b cur IH]; intros pre peaks.
  - cbn. now rewrite app_nil_r.
  - cbn [map ExtractPeaks_emit].
    assert (len (pre ++ [b]) = len pre + 1) as Hlen
      by (unfold len; rewrite length_app; cbn; lia).
    assert (pre ++ b :: cur = (pre ++ [b]) ++ cur) as Happ
      by now rewrite <- app_assoc.
    destruct (fgt (mag b) avg) eqn:E.
    + rewrite (index_Ok _ _ (freqIdx b)).
      * rewrite bind_Ok, <- Hlen, Happ, IH.
        rewrite filter_cons_True by (now rewrite E). cbn [map].
        now rewrite <- app_assoc.
      * unfold len. lia.
      * unfold len. rewrite Nat2Z.id, list_lookup_fmap, lookup_app_r by lia.
        now rewrite Nat.sub_diag.
    + rewrite <- Hlen, Happ, IH.
      rewrite filter_cons_False by (now rewrite E). reflexivity.
Qed.

Lemma ExtractPeaks_loop_result (cfg : FingerprintConfig)
    (frameDuration freqResolution : float64) (halfWindow : Z)
    (frames : list (list float64)) :
  forall (frameIdx : Z) (peaks : list Peak),
    ExtractPeaks_loop cfg frameDuration freqResolution halfWindow frameIdx
      frames peaks
    = if forallb (fun frame =>
                    forallb (band_scannable halfWindow frame) (FreqBands cfg)) frames
      then Ok (peaks ++ frames_peaks scan_max cfg frameDuration freqResolution
                          halfWindow frameIdx frames)
      else Panic.
Proof.
  induction frames as [| frame frames IH]; intros frameIdx peaks.
  - cbn. now rewrite app_nil_r.
  - cbn [ExtractPeaks_loop forallb frames_peaks].
    rewrite ExtractPeaks_bands_result.
    destruct (forallb (band_scannable halfWindow frame) (FreqBands cfg));
      [| reflexivity].
    cbn [andb app]. cbv zeta. rewrite bind_Ok.
    unfold frame_peaks.
    fold (frame_maxima scan_max cfg halfWindow frame).
    set (M := frame_maxima scan_max cfg halfWindow frame).
    destruct (Z.eqb_spec (len (map mag M)) 0) as [Hz | Hnz].
    + assert (M = []) as ->.
      { destruct M; [reflexivity | discriminate]. }
      cbn. apply IH.
    + change (fold_left Qplus (map mag M) 0%Q / float64_of_int (len (map mag M)))%Q
        with (mean (map mag M)).
      change (map freqIdx M) with (map freqIdx ([] ++ M)).
      change 0 with (len (@nil bandMax)) at 1.
      rewrite ExtractPeaks_emit_result, bind_Ok, IH.
      destruct (forallb _ frames); [| reflexivity].
      now rewrite <- app_assoc.
Qed.

(** What ExtractPeaks returns: the peaks of the frames, frame by frame,
    or a panic when a non-empty band starts at a negative bin. *)
Lemma ExtractPeaks_result (spectrogram : list (list float64))
    (audioDuration : float64) (sampleRate : Z) (cfg : FingerprintConfig) :
  ExtractPeaks spectrogram audioDuration sampleRate cfg
  = if scannable spectrogram cfg
    then Ok (peaks_of scan_max spectrogram audioDuration sampleRate cfg)
    else Panic.
Proof.
  unfold ExtractPeaks, scannable, peaks_of.
  destruct (Z.ltb_spec (len spectrogram) 1) as [Hlt | Hge].
  - destruct spectrogram; [reflexivity | unfold len in Hlt; cbn in Hlt; lia].
  - cbv zeta. rewrite ExtractPeaks_loop_result. reflexivity.
Qed.

(** *** The peaks come out in time order *)

Lemma StronglySorted_lookup_le {A : Type} (R : A -> A -> Prop) (l : list A) :
  (forall x, R x x) -> StronglySorted R l ->
  forall (i j : nat) (x y : A),
    (i <= j)%nat -> l !! i = Some x -> l !! j = Some y -> R x y.
Proof.
  intros Hrefl Hs. induction Hs as [| a l Hs IH Hall]; intros i j x y Hij Hi Hj.
  - discriminate.
  - destruct i as [| i], j as [| j]; cbn in Hi, Hj; try lia.
    + injection Hi as <-. injection Hj as <-. apply Hrefl.
    + injection Hi as <-. rewrite Forall_forall in Hall.
      apply Hall. eapply list_elem_of_lookup_2. exact Hj.
    + apply (IH i j); [lia | exact Hi | exact Hj].
Qed.

Lemma frame_peaks_time (bmax : list (Z * float64) -> option bandMax)
    (cfg : FingerprintConfig) (frameDuration freqResolution : float64)
    (halfWindow frameIdx : Z) (frame : list float64) (p : Peak) :
  p ∈ frame_peaks bmax cfg frameDuration freqResolution halfWindow frameIdx frame ->
  Time p = (float64_of_int frameIdx * frameDuration)%Q.
Proof.
  unfold frame_peaks. cbv zeta. intros Hp.
  apply list_elem_of_fmap in Hp as (b & -> & _). reflexivity.
Qed.

Lemma frames_peaks_sorted (bmax : list (Z * float64) -> option bandMax)
    (cfg : FingerprintConfig) (frameDuration freqResolution : float64)
    (halfWindow : Z) (frames : list (list float64)) :
  (0 <= frameDuration)%Q ->
  forall frameIdx : Z,
    StronglySorted time_le
      (frames_peaks bmax cfg frameDuration freqResolution halfWindow frameIdx frames)
    /\ Forall (fun p => (float64_of_int frameIdx * frameDuration <= Time p)%Q)
         (frames_peaks bmax cfg frameDuration freqResolution halfWindow frameIdx frames).
Proof.
  intros Hd. induction frames as [| frame frames IH]; intros frameIdx.
  - cbn. split; constructor.
  - cbn [frames_peaks]. destruct (IH (frameIdx + 1)) as [Hs Hlow].
    assert (float64_of_int frameIdx * frameDuration
            <= float64_of_int (frameIdx + 1) * frameDuration)%Q as Hstep.
    { apply Qmult_le_compat_r; [| exact Hd].
      unfold float64_of_int. rewrite <- Zle_Qle. lia. }
    split.
    + apply StronglySorted_app. split; [| split].
      * intros p q Hp Hq. unfold time_le.
        rewrite (frame_peaks_time _ _ _ _ _ _ _ _ Hp).
        rewrite Forall_forall in Hlow. specialize (Hlow q Hq).
        eapply Qle_trans; [exact Hstep | exact Hlow].
      * assert (forall l : list Peak,
                   Forall (fun p => Time p = (float64_of_int frameIdx * frameDuration)%Q) l ->
                   StronglySorted time_le l) as Hconst.
        { induction 1 as [| p l Hp Hl IHl]; constructor; [exact IHl |].
          eapply Forall_impl; [exact Hl |].
          intros q Hq. unfold time_le. rewrite Hp, Hq. apply Qle_refl. }
        apply Hconst. apply Forall_forall. intros p Hp.
        eapply frame_peaks_time. exact Hp.
      * exact Hs.
    + apply Forall_app. split.
      * apply Forall_forall. intros p Hp.
        rewrite (frame_peaks_time _ _ _ _ _ _ _ _ Hp). apply Qle_refl.
      * eapply Forall_impl; [exact Hlow |].
        intros p Hp. cbn beta in Hp. eapply Qle_trans; [exact Hstep | exact Hp].
Qed.

Lemma frame_duration_nonneg (audioDuration : float64) (n : Z) :
  (0 <= audioDuration)%Q -> 0 <= n -> (0 <= audioDuration / float64_of_int n)%Q.
Proof.
  intros HD Hn. unfold Qdiv. apply Qmult_le_0_compat; [exact HD |].
  apply Qinv_le_0_compat. unfold float64_of_int.
  change 0%Q with (inject_Z 0). rewrite <- Zle_Qle. exact Hn.
Qed.

(** C10: for a non-negative audio duration the peaks ExtractPeaks returns
    are in non-decreasing time order, so that the time delta of an anchor
    and a later target is never negative; ExtractPeaks returns a list
    unless a non-empty band starts at a negative bin, which panics. *)
Theorem ExtractPeaks_time_monotone (spectrogram : list (list float64))
    (audioDuration : float64) (sampleRate : Z) (cfg : FingerprintConfig) :
  (0 <= audioDuration)%Q ->
  match ExtractPeaks spectrogram audioDuration sampleRate cfg with
  | Ok peaks =>
      forall (i j : nat) (anchor target : Peak),
        (i <= j)%nat -> peaks !! i = Some anchor -> peaks !! j = Some target ->
        (Time anchor <= Time target)%Q /\ (0 <= Time target - Time anchor)%Q
  | Panic => scannable spectrogram cfg = false
  | Err _ | Timeout => False
  end.
Proof.
  intros HD. rewrite ExtractPeaks_result.
  destruct (scannable spectrogram cfg); [| reflexivity].
  intros i j anchor target Hij Hi Hj.
  assert (Time anchor <= Time target)%Q as Hle.
  { refine (StronglySorted_lookup_le time_le _ _ _ i j anchor target Hij Hi Hj).
    - intros p. apply Qle_refl.
    - unfold peaks_of. cbv zeta. apply frames_peaks_sorted.
      apply frame_duration_nonneg; [exact HD | unfold len; lia]. }
  split; [exact Hle |].
  now apply (Qle_minus_iff (Time anchor) (Time target)).
Qed.

(** *** Where the peaks lie *)

Lemma fold_best_step_from (l : list (Z * float64)) :
  forall best : bandMax,
    let b := fold_left best_step l best in
    b = best \/ (freqIdx b, mag b) ∈ l.
Proof.
  induction l as [| e l IH]; intros best; cbn [fold_left].
  - now left.
  - destruct (IH (best_step best e)) as [Heq | Hin].
    + rewrite Heq. unfold best_step. destruct (fgt e.2 (mag best)).
      * right. cbn. destruct e. apply list_elem_of_here.
      * now left.
    + right. now apply list_elem_of_further.
Qed.

Lemma band_entries_bin (halfWindow : Z) (frame : list float64) (band : Z * Z)
    (idx : Z) (x : float64) :
  (idx, x) ∈ band_entries halfWindow frame band ->
  band.1 <= idx < band_hi halfWindow frame band /\ x ∈ frame.
Proof.
  unfold band_entries. intros Hin.
  apply list_elem_of_lookup in Hin as [i Hi].
  apply lookup_zip_with_Some in Hi as (j & y & [= <- <-] & Hj & Hy).
  apply lookup_seqZ in Hj as [-> Hlt].
  apply lookup_take_Some in Hy as [Hy _]. rewrite lookup_drop in Hy.
  split; [lia |]. eapply list_elem_of_lookup_2. exact Hy.
Qed.





(** *** One peak per band above the mean *)



Lemma fold_best_step_ge (l : list (Z * float64)) :
  forall best : bandMax, (mag best <= mag (fold_left best_step l best))%Q.
Proof.
  induction l as [| e l IH]; intros best; [apply Qle_refl |].
  cbn [fold_left]. eapply Qle_trans; [| apply IH].
  unfold best_step. destruct (fgt e.2 (mag best)) eqn:E; [| apply Qle_refl].
  cbn. apply Qlt_le_weak. now apply fgt_true.
Qed.

(** [band_max] is the maximum of the band, at its first bin. *)
Lemma fold_best_step_max (l : list (Z * float64)) :
  forall best : bandMax,
    Forall (fun e => (e.2 <= mag (fold_left best_step l best))%Q) l.
Proof.
  induction l as [| e l IH]; intros best; constructor; cbn [fold_left].
  - eapply Qle_trans; [| apply fold_best_step_ge].
    unfold best_step. destruct (fgt e.2 (mag best)) eqn:E; [apply Qle_refl |].
    now apply fgt_false.
  - apply IH.
Qed.

Lemma band_max_is_maximum (entries : list (Z * float64)) (b : bandMax) :
  band_max entries = Some b ->
  (freqIdx b, mag b) ∈ entries /\ Forall (fun e => (e.2 <= mag b)%Q) entries.
Proof.
  destruct entries as [| e rest]; [discriminate |]. intros [= <-]. split.
  - pose proof (fold_best_step_from rest (mkBandMax e.2 e.1)) as Hfrom.
    cbv zeta in Hfrom. destruct Hfrom as [-> | Hin].
    + cbn. destruct e. apply list_elem_of_here.
    + now apply list_elem_of_further.
  - constructor; [apply (fold_best_step_ge rest (mkBandMax e.2 e.1)) |].
    apply fold_best_step_max.
Qed.


Lemma scan_max_nonneg (entries : list (Z * float64)) (b : bandMax) :
  scan_max entries = Some b -> (0 <= mag b)%Q.
Proof.
  destruct entries as [| e rest]; [discriminate |]. intros [= <-].
  apply (fold_best_step_ge (e :: rest) (mkBandMax 0 0)).
Qed.

Section SameMaxima.

Variable cfg : FingerprintConfig.
Variable halfWindow : Z.
Variable frame : list float64.
Hypothesis frame_nonneg : Forall (fun x => (0 <= x)%Q) frame.



End SameMaxima.


Lemma fold_left_Qplus_nonneg (l : list float64) :
  Forall (fun x => (0 <= x)%Q) l ->
  forall a : float64, (0 <= a)%Q -> (0 <= fold_left Qplus l a)%Q.
Proof.
  induction 1 as [| x l Hx Hl IH]; intros a Ha; [exact Ha |].
  cbn [fold_left]. apply IH.
  rewrite <- (Qplus_0_l 0). now apply Qplus_le_compat.
Qed.


Lemma mean_nonneg (l : list float64) :
  Forall (fun x => (0 <= x)%Q) l -> (0 <= mean l)%Q.
Proof.
  intros Hl. unfold mean, Qdiv. apply Qmult_le_0_compat.
  - apply fold_left_Qplus_nonneg; [exact Hl | apply Qle_refl].
  - apply Qinv_le_0_compat. change 0%Q with (inject_Z 0).
    rewrite <- Zle_Qle. unfold len. lia.
Qed.



Lemma scannable_nonneg_bands (spectrogram : list (list float64))
    (cfg : FingerprintConfig) :
  Forall (fun band : Z * Z => 0 <= band.1) (FreqBands cfg) ->
  scannable spectrogram cfg = true.
Proof.
  intros Hb. unfold scannable. apply forallb_forall. intros frame _.
  apply forallb_forall. intros band Hband.
  rewrite Forall_forall in Hb. apply list_elem_of_In in Hband.
  unfold band_scannable. apply orb_true_iff. right.
  apply Z.leb_le. now apply Hb.
Qed.





(** C10, witness: the two peaks of [three_frames]. *)
Lemma ExtractPeaks_time_monotone_witness :
  (inject_Z 0 * (3 / inject_Z 3) <= inject_Z 1 * (3 / inject_Z 3))%Q /\
  (0 <= inject_Z 1 * (3 / inject_Z 3) - inject_Z 0 * (3 / inject_Z 3))%Q.
Proof.
  pose proof (ExtractPeaks_time_monotone three_frames 3 8 two_band_config) as H.
  rewrite ExtractPeaks_result in H.
  exact (H ltac:(discriminate) 0%nat 1%nat _ _ (le_S _ _ (le_n _)) eq_refl eq_refl).
Defined.


(** ** Fingerprint *)

Lemma seqZ_to_nat (m n : Z) : seqZ m (Z.of_nat (Z.to_nat n)) = seqZ m n.
Proof. unfold seqZ. now rewrite Nat2Z.id. Qed.

Lemma Fingerprint_targets_pairs (peaks : list Peak) (songID : Z)
    (cfg : FingerprintConfig) (i : Z) (anchor : Peak) :
  0 <= i -> peaks !! Z.to_nat i = Some anchor ->
  forall (m : nat) (j : Z) (fuel : nat) (fingerprints : gmap Z Couple),
    i < j ->
    Z.of_nat m = Z.max 0 (Z.min (i + TargetZoneSize cfg) (len peaks - 1) + 1 - j) ->
    (m <= fuel)%nat ->
    Fingerprint_targets fuel peaks songID cfg i anchor j fingerprints
    = Ok (foldl (store_pair peaks songID) fingerprints
            ((fun j => (i, j)) <$> seqZ j (Z.of_nat m))).
Proof.
  intros Hi Hanchor. induction m as [| m IH]; intros j fuel fingerprints Hij Hm Hfuel.
  - assert ((j <? len peaks) && (j <=? i + TargetZoneSize cfg) = false) as Hguard.
    { apply andb_false_iff.
      destruct (Z.ltb_spec j (len peaks)); [right | now left].
      apply Z.leb_gt. lia. }
    destruct fuel; cbn [Fingerprint_targets]; now rewrite Hguard.
  - destruct fuel as [| fuel]; [lia |]. cbn [Fingerprint_targets].
    assert (j < len peaks /\ j <= i + TargetZoneSize cfg) as [Hlt Hle] by lia.
    destruct (Z.ltb_spec j (len peaks)); [| lia].
    destruct (Z.leb_spec j (i + TargetZoneSize cfg)); [| lia]. cbn [andb].
    destruct (lookup_lt_is_Some_2 peaks (Z.to_nat j)) as [target Htarget];
      [unfold len in Hlt; lia |].
    rewrite (index_Ok _ _ target) by (lia || assumption). rewrite bind_Ok.
    rewrite IH by lia. rewrite seqZ_S. cbn [fmap list_fmap foldl].
    unfold store_pair at 3. cbn [fst snd]. now rewrite Hanchor, Htarget.
Qed.

Lemma Fingerprint_anchors_pairs (peaks : list Peak) (songID : Z)
    (cfg : FingerprintConfig) (anchors : list Peak) :
  forall (i : nat) (fingerprints : gmap Z Couple),
    drop i peaks = anchors ->
    Fingerprint_anchors peaks songID cfg (Z.of_nat i) anchors fingerprints
    = Ok (foldl (store_pair peaks songID) fingerprints
            (k ← seqZ (Z.of_nat i) (len anchors);
             (fun j => (k, j)) <$> target_indices (len peaks) (TargetZoneSize cfg) k)).
Proof.
  induction anchors as [| anchor anchors IH]; intros i fingerprints Hdrop.
  - reflexivity.
  - cbn [Fingerprint_anchors].
    assert (peaks !! i = Some anchor) as Hanchor.
    { pose proof (lookup_drop peaks i 0) as Hl.
      rewrite Hdrop, Nat.add_0_r in Hl. symmetry. exact Hl. }
    assert (i < length peaks)%nat as Hlt by (eapply lookup_lt_Some; eassumption).
    set (m := Z.to_nat (Z.min (Z.of_nat i + TargetZoneSize cfg) (len peaks - 1)
                        - Z.of_nat i)).
    rewrite (Fingerprint_targets_pairs peaks songID cfg (Z.of_nat i) anchor
               ltac:(lia) ltac:(now rewrite Nat2Z.id) m);
      [| lia | subst m; lia | subst m; unfold len; lia].
    rewrite bind_Ok.
    replace (Z.of_nat i + 1) with (Z.of_nat (S i)) by lia.
    rewrite IH by (rewrite (drop_S _ _ _ Hanchor) in Hdrop; now injection Hdrop).
    f_equal. change (len (anchor :: anchors)) with (Z.of_nat (S (length anchors))).
    rewrite seqZ_S.
    cbn [mbind list_bind]. rewrite foldl_app. f_equal.
    + unfold target_indices. subst m. rewrite seqZ_to_nat.
      now replace (Z.of_nat (S i)) with (Z.of_nat i + 1) by lia.
    + now replace (Z.of_nat (S i)) with (Z.of_nat i + 1) by lia.
Qed.

(** Fingerprint returns a map, whatever the config. *)
Lemma Fingerprint_ok (peaks : list Peak) (songID : Z) (cfg : FingerprintConfig) :
  Fingerprint peaks songID cfg
  = Ok (fingerprints_of peaks songID (TargetZoneSize cfg)).
Proof.
  unfold Fingerprint, fingerprints_of.
  apply (Fingerprint_anchors_pairs peaks songID cfg peaks 0 ∅). reflexivity.
Qed.

Lemma store_pair_size (peaks : list Peak) (songID : Z) (l : list (Z * Z)) :
  forall fingerprints : gmap Z Couple,
    (size (foldl (store_pair peaks songID) fingerprints l)
     <= size fingerprints + length l)%nat.
Proof.
  induction l as [| ij l IH]; intros fingerprints; cbn [foldl length]; [lia |].
  etransitivity; [apply IH |].
  assert (size (store_pair peaks songID fingerprints ij) <= S (size fingerprints))%nat;
    [| lia].
  unfold store_pair.
  destruct (peaks !! Z.to_nat ij.1); [| lia].
  destruct (peaks !! Z.to_nat ij.2); [| lia].
  rewrite map_size_insert. destruct (fingerprints !! _); unfold id; lia.
Qed.

Lemma anchor_target_pairs_length (n zone : Z) :
  0 <= zone -> Z.of_nat (length (anchor_target_pairs n zone)) <= Z.max 0 n * zone.
Proof.
  intros Hz. unfold anchor_target_pairs.
  assert (forall l : list Z,
             Z.of_nat (length (i ← l; (fun j => (i, j)) <$> target_indices n zone i))
             <= Z.of_nat (length l) * zone) as Hbind.
  { induction l as [| i l IH]; [cbn; lia |].
    cbn [mbind list_bind length]. rewrite length_app, length_fmap.
    unfold target_indices at 1. rewrite length_seqZ.
    change (foldr _ _ _) with (i ← l; (fun j => (i, j)) <$> target_indices n zone i) in *.
    lia. }
  etransitivity; [apply Hbind |]. rewrite length_seqZ. lia.
Qed.

Lemma store_pair_entries (peaks : list Peak) (songID : Z) (l : list (Z * Z))
    (P : Z -> Couple -> Prop) :
  (forall (i j : Z) (anchor target : Peak),
      (i, j) ∈ l -> peaks !! Z.to_nat i = Some anchor ->
      peaks !! Z.to_nat j = Some target ->
      P (createAddress anchor target)
        {| AnchorTimeMs := uint32_of_float64 (Time anchor * 1000)%Q;
           SongID := songID |}) ->
  forall fingerprints : gmap Z Couple,
    map_Forall P fingerprints ->
    map_Forall P (foldl (store_pair peaks songID) fingerprints l).
Proof.
  induction l as [| [i j] l IH]; intros HP fingerprints Hinit; [exact Hinit |].
  cbn [foldl]. apply IH.
  - intros i' j' a t Hin. apply HP. now apply list_elem_of_further.
  - unfold store_pair. cbn [fst snd].
    destruct (peaks !! Z.to_nat i) as [anchor |] eqn:Ea; [| exact Hinit].
    destruct (peaks !! Z.to_nat j) as [target |] eqn:Et; [| exact Hinit].
    apply map_Forall_insert_2; [| exact Hinit].
    apply (HP i j); [apply list_elem_of_here | assumption | assumption].
Qed.

Lemma anchor_target_pairs_range (n zone i j : Z) :
  (i, j) ∈ anchor_target_pairs n zone ->
  0 <= i /\ i + 1 <= j <= Z.min (i + zone) (n - 1).
Proof.
  unfold anchor_target_pairs. intros Hin.
  apply list_elem_of_bind in Hin as (k & Hin & Hk).
  apply list_elem_of_fmap in Hin as (j' & [= -> ->] & Hj).
  apply elem_of_seqZ in Hk. unfold target_indices in Hj.
  apply elem_of_seqZ in Hj. lia.
Qed.

(** C9: with TargetZoneSize = Z >= 1, Fingerprint pairs the anchor at
    index i with the targets at the indices j of [i+1, min(i+Z, len-1)] and
    with no other: the map it returns is the result of storing these
    pairs in order, each of its entries comes from such a pair, and it
    has at most peak_count * Z entries. *)
Theorem Fingerprint_pairs_bound (peaks : list Peak) (songID : Z)
    (cfg : FingerprintConfig) :
  1 <= TargetZoneSize cfg ->
  exists fingerprints : gmap Z Couple,
    Fingerprint peaks songID cfg = Ok fingerprints /\
    fingerprints
    = foldl (store_pair peaks songID) ∅
        (i ← seqZ 0 (len peaks);
         (fun j => (i, j)) <$>
           seqZ (i + 1) (Z.min (i + TargetZoneSize cfg) (len peaks - 1) - i)) /\
    (forall (address : Z) (couple : Couple),
        fingerprints !! address = Some couple ->
        exists (i j : Z) (anchor target : Peak),
          0 <= i /\ i + 1 <= j <= Z.min (i + TargetZoneSize cfg) (len peaks - 1) /\
          peaks !! Z.to_nat i = Some anchor /\ peaks !! Z.to_nat j = Some target /\
          address = createAddress anchor target /\
          couple = {| AnchorTimeMs := uint32_of_float64 (Time anchor * 1000)%Q;
                      SongID := songID |}) /\
    Z.of_nat (size fingerprints) <= len peaks * TargetZoneSize cfg.
Proof.
  intros Hz. exists (fingerprints_of peaks songID (TargetZoneSize cfg)).
  split; [apply Fingerprint_ok |]. split; [reflexivity |]. split.
  - unfold fingerprints_of.
    apply (store_pair_entries peaks songID _
             (fun address couple =>
                exists (i j : Z) (anchor target : Peak),
                  0 <= i /\
                  i + 1 <= j <= Z.min (i + TargetZoneSize cfg) (len peaks - 1) /\
                  peaks !! Z.to_nat i = Some anchor /\
                  peaks !! Z.to_nat j = Some target /\
                  address = createAddress anchor target /\
                  couple = {| AnchorTimeMs := uint32_of_float64 (Time anchor * 1000)%Q;
                              SongID := songID |})).
    + intros i j anchor target Hin Ha Ht.
      apply anchor_target_pairs_range in Hin as [Hi Hj].
      exists i, j, anchor, target. repeat split; try assumption; lia.
    + apply map_Forall_empty.
  - unfold fingerprints_of.
    pose proof (store_pair_size peaks songID
                  (anchor_target_pairs (len peaks) (TargetZoneSize cfg)) ∅) as Hsize.
    rewrite map_size_empty in Hsize.
    pose proof (anchor_target_pairs_length (len peaks) (TargetZoneSize cfg)
                  ltac:(lia)) as Hlen.
    unfold len in *. lia.
Qed.

(** C9, witness: three peaks and Z = 1 give the pairs (0,1) and (1,2). *)
Lemma Fingerprint_pairs_bound_witness :
  exists fingerprints : gmap Z Couple,
    Fingerprint [mkPeak 100 0; mkPeak 200 1; mkPeak 300 2] 7
      (mkConfig 1 8 8 3 1 [] 0) = Ok fingerprints /\
    Z.of_nat (size fingerprints) <= 3 * 1.
Proof.
  destruct (Fingerprint_pairs_bound
              [mkPeak 100 0; mkPeak 200 1; mkPeak 300 2] 7 (mkConfig 1 8 8 3 1 [] 0))
    as (fingerprints & H1 & _ & _ & H2); [cbn; lia |].
  exists fingerprints. split; [exact H1 | exact H2].
Defined.


(** ** The chunked driver *)

Section DriverFacts.

Variable math_Cos : float64 -> float64.
Variable FFT : list float64 -> list (float64 * float64).
Variable cmplx_Abs : float64 * float64 -> float64.
Variable GetAudioDuration : string -> Result float64.
Variable ExtractChunkAsWAV : string -> float64 -> float64 -> Result string.
Variable ReadWavInfo : string -> Result WavInfo.

Variable inputPath : string.
Variable songID : Z.
Variable cfg : FingerprintConfig.

Let chunk := processChunk math_Cos FFT cmplx_Abs ExtractChunkAsWAV ReadWavInfo
               inputPath songID cfg.
Let loop := FingerprintAudioChunked_loop math_Cos FFT cmplx_Abs ExtractChunkAsWAV
              ReadWavInfo.

Lemma chunkStep_step_of (C : float64) : chunkStep C = step_of C.
Proof.
  unfold chunkStep, step_of. cbv zeta.
  destruct (Qlt_le_dec overlap C) as [Hlt | Hle].
  - assert (fle (C - overlap) 0 = false) as ->; [| reflexivity].
    apply fle_false. now apply (Qlt_minus_iff overlap C).
  - assert (fle (C - overlap) 0 = true) as ->; [| reflexivity].
    apply fle_true. apply (Qplus_le_l _ _ overlap). now ring_simplify.
Qed.

(** The loop: the calls it adds form a chain from [start], and its answer
    is the accumulated map, the failure of the last chunk called, or the
    exhaustion of the bound. *)
Lemma FingerprintAudioChunked_loop_outcome
    (duration chunkDur step : float64) (fuel : nat) :
  forall (start : float64) (calls : list (float64 * float64))
         (fingerprints : gmap Z Couple)
         (calls' : list (float64 * float64)) (r : Result (gmap Z Couple)),
    loop fuel inputPath songID cfg duration chunkDur step start calls fingerprints
    = (calls', r) ->
    exists new,
      calls' = calls ++ new /\ chunk_chain step start new /\
      ((all_Ok chunk new /\ ((exists m, r = Ok m) \/ r = Timeout)) \/
       aborted_at chunk new r).
Proof.
  subst loop.
  induction fuel as [| fuel IH]; intros start calls fingerprints calls' r Hrun;
    cbn [FingerprintAudioChunked_loop] in Hrun.
  - exists []. rewrite app_nil_r.
    destruct (flt start duration); injection Hrun as <- <-;
      (split; [reflexivity |]); (split; [exact I |]); left;
      (split; [constructor |]); eauto.
  - destruct (flt start duration).
    2:{ injection Hrun as <- <-. exists []. rewrite app_nil_r.
        split; [reflexivity |]. split; [exact I |]. left.
        split; [constructor | eauto]. }
    cbv zeta in Hrun.
    set (dur := if fgt (start + chunkDur) duration
                then (duration - start)%Q else chunkDur) in Hrun.
    destruct (fle dur 0).
    { injection Hrun as <- <-. exists []. rewrite app_nil_r.
      split; [reflexivity |]. split; [exact I |]. left.
      split; [constructor | eauto]. }
    fold (chunk start dur) in Hrun.
    destruct (chunk start dur) as [chunkFP | e | |] eqn:Hchunk.
    + apply IH in Hrun as (new & -> & Hchain & Hout).
      exists ((start, dur) :: new). rewrite <- app_assoc.
      split; [reflexivity |]. split; [split; [reflexivity | exact Hchain] |].
      destruct Hout as [[Hok Hr] | (init & c & -> & Hinit & Hc & Hr)].
      * left. split; [| exact Hr]. constructor; [| exact Hok]. eauto.
      * right. exists ((start, dur) :: init), c.
        split; [reflexivity |]. split; [| now split].
        constructor; [| exact Hinit]. eauto.
    + injection Hrun as <- <-. exists [(start, dur)].
      split; [reflexivity |]. split; [now split |]. right.
      exists [], (start, dur). repeat split; [constructor | exact Hchunk | discriminate].
    + injection Hrun as <- <-. exists [(start, dur)].
      split; [reflexivity |]. split; [now split |]. right.
      exists [], (start, dur). repeat split; [constructor | exact Hchunk | discriminate].
    + injection Hrun as <- <-. exists [(start, dur)].
      split; [reflexivity |]. split; [now split |]. right.
      exists [], (start, dur). repeat split; [constructor | exact Hchunk | discriminate].
Qed.

(** The bound of the loop is never what stops it. *)
Lemma FingerprintAudioChunked_loop_fuel
    (duration chunkDur step : float64) (Hstep : (0 < step)%Q) (fuel : nat) :
  forall (start : float64) (calls : list (float64 * float64))
         (fingerprints : gmap Z Couple)
         (calls' : list (float64 * float64)),
    ((duration - start) / step <= inject_Z (Z.of_nat fuel))%Q ->
    loop fuel inputPath songID cfg duration chunkDur step start calls fingerprints
    = (calls', Timeout) ->
    exists c, c ∈ calls' /\ chunk c.1 c.2 = Timeout.
Proof.
  subst loop.
  induction fuel as [| fuel IH]; intros start calls fingerprints calls' Hfuel Hrun;
    cbn [FingerprintAudioChunked_loop] in Hrun.
  - destruct (flt start duration) eqn:Hguard; [| discriminate].
    exfalso. apply flt_true in Hguard.
    apply (Qmult_le_r _ _ step Hstep) in Hfuel.
    assert ((duration - start) / step * step == duration - start)%Q as Heq.
    { field. intros H0. rewrite H0 in Hstep. now apply Qlt_irrefl in Hstep. }
    rewrite Heq in Hfuel. cbn [Z.of_nat] in Hfuel.
    assert (inject_Z 0 * step == 0)%Q as H0 by ring. rewrite H0 in Hfuel.
    lra.
  - destruct (flt start duration); [| discriminate].
    cbv zeta in Hrun.
    set (dur := if fgt (start + chunkDur) duration
                then (duration - start)%Q else chunkDur) in Hrun.
    destruct (fle dur 0); [discriminate |].
    fold (chunk start dur) in Hrun.
    destruct (chunk start dur) as [chunkFP | e | |] eqn:Hchunk; try discriminate.
    + apply IH in Hrun; [exact Hrun |].
      assert ((duration - (start + step)) / step == (duration - start) / step - 1)%Q
        as ->.
      { field. intros H0. rewrite H0 in Hstep. now apply Qlt_irrefl in Hstep. }
      replace (Z.of_nat (S fuel)) with (Z.of_nat fuel + 1)%Z in Hfuel by lia.
      rewrite inject_Z_plus in Hfuel. change (inject_Z 1) with 1%Q in Hfuel. lra.
    + injection Hrun as <-. exists (start, dur).
      split; [| exact Hchunk]. apply elem_of_app. right. apply list_elem_of_here.
Qed.

(** A chunk answers [Timeout] only if the transcoder or the reader does. *)
Lemma processChunk_no_timeout (start dur : float64) :
  (forall path s d, ExtractChunkAsWAV path s d <> Timeout) ->
  (forall path, ReadWavInfo path <> Timeout) ->
  chunk start dur <> Timeout.
Proof.
  intros Hextract Hread. subst chunk. unfold processChunk.
  pose proof (Hextract inputPath start dur) as He.
  destruct (ExtractChunkAsWAV inputPath start dur) as [chunkPath | | |];
    try discriminate; [| contradiction].
  pose proof (Hread chunkPath) as Hr.
  destruct (ReadWavInfo chunkPath) as [wavInfo | | |];
    try discriminate; [| contradiction].
  pose proof (Spectrogram_no_timeout math_Cos FFT cmplx_Abs
                (LeftChannelSamples wavInfo) (SampleRate wavInfo) cfg) as Hs.
  destruct (Spectrogram _ _ _ _ _ _) as [spectro | | |];
    try discriminate; [| contradiction].
  rewrite ExtractPeaks_result. destruct (scannable spectro cfg); [| discriminate].
  now rewrite bind_Ok, Fingerprint_ok.
Qed.

Lemma chunkStep_pos (C : float64) : (0 < C)%Q -> (0 < chunkStep C)%Q.
Proof.
  intros HC. unfold chunkStep. cbv zeta.
  destruct (fle (C - overlap) 0) eqn:E; [exact HC |]. now apply fle_false.
Qed.

Lemma chunkDuration_pos (duration : float64) :
  (0 < duration)%Q -> (0 < chunkDuration cfg duration)%Q.
Proof.
  intros HD. unfold chunkDuration. cbv zeta.
  destruct (fle (ChunkDurationSec cfg) 0) eqn:E; [exact HD |]. now apply fle_false.
Qed.

(** FingerprintAudioChunked answers [Timeout] only if the environment
    does: the bound of its loop is enough. *)
Lemma FingerprintAudioChunked_no_timeout (calls : list (float64 * float64)) :
  GetAudioDuration inputPath <> Timeout ->
  FingerprintAudioChunked math_Cos FFT cmplx_Abs GetAudioDuration
    ExtractChunkAsWAV ReadWavInfo inputPath songID cfg = (calls, Timeout) ->
  exists c, c ∈ calls /\ chunk c.1 c.2 = Timeout.
Proof.
  unfold FingerprintAudioChunked. intros Hprobe.
  destruct (GetAudioDuration inputPath) as [duration | e | |];
    try discriminate; [| contradiction].
  cbv zeta. intros Hrun.
  destruct (Qlt_le_dec 0 duration) as [Hpos | Hneg].
  - pose proof (chunkStep_pos _ (chunkDuration_pos _ Hpos)) as Hstep.
    refine (FingerprintAudioChunked_loop_fuel duration _ _ Hstep _ _ _ _ _ _ Hrun).
    assert ((duration - 0) / chunkStep (chunkDuration cfg duration)
            == duration / chunkStep (chunkDuration cfg duration))%Q as ->.
    { field. intros H0. rewrite H0 in Hstep. now apply Qlt_irrefl in Hstep. }
    eapply Qle_trans; [apply Qle_ceiling |].
    rewrite <- Zle_Qle. lia.
  - exfalso.
    destruct (Z.to_nat _) in Hrun; cbn [FingerprintAudioChunked_loop] in Hrun;
      (assert (flt 0 duration = false) as Hg by now apply flt_false);
      rewrite Hg in Hrun; discriminate.
Qed.

Lemma FingerprintAudioChunked_outcome (duration : float64)
    (calls : list (float64 * float64)) (r : Result (gmap Z Couple)) :
  GetAudioDuration inputPath = Ok duration ->
  FingerprintAudioChunked math_Cos FFT cmplx_Abs GetAudioDuration
    ExtractChunkAsWAV ReadWavInfo inputPath songID cfg = (calls, r) ->
  chunk_chain (chunkStep (chunkDuration cfg duration)) 0 calls /\
  ((all_Ok chunk calls /\ ((exists m, r = Ok m) \/ r = Timeout)) \/
   aborted_at chunk calls r).
Proof.
  unfold FingerprintAudioChunked. intros -> Hrun. cbv zeta in Hrun.
  apply FingerprintAudioChunked_loop_outcome in Hrun as (new & -> & Hchain & Hout).
  now split.
Qed.

Lemma processChunk_song_ids (start dur : float64) (chunkFP : gmap Z Couple) :
  chunk start dur = Ok chunkFP ->
  map_Forall (fun _ couple => SongID couple = songID) chunkFP.
Proof.
  subst chunk. unfold processChunk.
  destruct (ExtractChunkAsWAV inputPath start dur) as [chunkPath | | |];
    try discriminate.
  destruct (ReadWavInfo chunkPath) as [wavInfo | | |]; try discriminate.
  destruct (Spectrogram _ _ _ _ _ _) as [spectro | | |]; try discriminate.
  destruct (ExtractPeaks _ _ _ _) as [peaks | | |]; try discriminate.
  rewrite bind_Ok, Fingerprint_ok. intros [= <-].
  unfold fingerprints_of. apply store_pair_entries; [| apply map_Forall_empty].
  reflexivity.
Qed.

Lemma FingerprintAudioChunked_loop_song_ids
    (duration chunkDur step : float64) (fuel : nat) :
  forall (start : float64) (calls : list (float64 * float64))
         (fingerprints : gmap Z Couple)
         (calls' : list (float64 * float64)) (m : gmap Z Couple),
    map_Forall (fun _ couple => SongID couple = songID) fingerprints ->
    loop fuel inputPath songID cfg duration chunkDur step start calls fingerprints
    = (calls', Ok m) ->
    map_Forall (fun _ couple => SongID couple = songID) m.
Proof.
  subst loop.
  induction fuel as [| fuel IH]; intros start calls fingerprints calls' m Hinit Hrun;
    cbn [FingerprintAudioChunked_loop] in Hrun.
  - destruct (flt start duration); [discriminate |]. now injection Hrun as _ <-.
  - destruct (flt start duration); [| now injection Hrun as _ <-].
    cbv zeta in Hrun.
    set (dur := if fgt (start + chunkDur) duration
                then (duration - start)%Q else chunkDur) in Hrun.
    destruct (fle dur 0); [now injection Hrun as _ <- |].
    fold (chunk start dur) in Hrun.
    destruct (chunk start dur) as [chunkFP | e | |] eqn:Hchunk; try discriminate.
    eapply IH; [| exact Hrun]. unfold ExtendMap.
    apply map_Forall_union_2; [| exact Hinit].
    eapply processChunk_song_ids. exact Hchunk.
Qed.

Lemma FingerprintAudioChunked_song_ids (calls : list (float64 * float64))
    (m : gmap Z Couple) :
  FingerprintAudioChunked math_Cos FFT cmplx_Abs GetAudioDuration
    ExtractChunkAsWAV ReadWavInfo inputPath songID cfg = (calls, Ok m) ->
  map_Forall (fun _ couple => SongID couple = songID) m.
Proof.
  unfold FingerprintAudioChunked.
  destruct (GetAudioDuration inputPath) as [duration | | |]; try discriminate.
  cbv zeta. apply FingerprintAudioChunked_loop_song_ids. apply map_Forall_empty.
Qed.

End DriverFacts.

Lemma chunk_chain_successive (step : float64) (calls : list (float64 * float64)) :
  forall (start : float64) (k : nat) (c c' : float64 * float64),
    chunk_chain step start calls ->
    calls !! k = Some c -> calls !! S k = Some c' -> c'.1 = (c.1 + step)%Q.
Proof.
  induction calls as [| c0 calls IH]; intros start k c c' Hchain Hk Hk';
    [discriminate |].
  destruct Hchain as [Hc0 Hchain]. destruct k as [| k].
  - injection Hk as <-. destruct calls as [| c1 calls]; [discriminate |].
    injection Hk' as <-. destruct Hchain as [-> _]. now rewrite Hc0.
  - eapply IH; eassumption.
Qed.

Lemma chunkDuration_cases (cfg : FingerprintConfig) (duration : float64) :
  chunkDuration cfg duration
  = if Qlt_le_dec 0 (ChunkDurationSec cfg) then ChunkDurationSec cfg else duration.
Proof.
  unfold chunkDuration. cbv zeta.
  destruct (Qlt_le_dec 0 (ChunkDurationSec cfg)) as [Hlt | Hle].
  - now apply fle_false in Hlt as ->.
  - now apply fle_true in Hle as ->.
Qed.

(** C2 (as amended): with C the configured chunk duration, replaced by the
    total duration D when it is not positive, and the overlap O = 5 s, the
    step between successive chunk start times is S = C - O when C > O, and
    S = C (no overlap) when C <= O: the chunks handed to the transcoder
    start at 0, S, S + S, ... *)
Theorem chunk_step_overlap
    (math_Cos : float64 -> float64)
    (FFT : list float64 -> list (float64 * float64))
    (cmplx_Abs : float64 * float64 -> float64)
    (GetAudioDuration : string -> Result float64)
    (ExtractChunkAsWAV : string -> float64 -> float64 -> Result string)
    (ReadWavInfo : string -> Result WavInfo)
    (inputPath : string) (songID : Z) (cfg : FingerprintConfig)
    (D : float64) (calls : list (float64 * float64))
    (r : Result (gmap Z Couple)) :
  GetAudioDuration inputPath = Ok D ->
  FingerprintAudioChunked math_Cos FFT cmplx_Abs GetAudioDuration
    ExtractChunkAsWAV ReadWavInfo inputPath songID cfg = (calls, r) ->
  let O := 5%Q in
  let C := if Qlt_le_dec 0 (ChunkDurationSec cfg) then ChunkDurationSec cfg else D in
  let step := if Qlt_le_dec O C then (C - O)%Q else C in
  chunkStep (chunkDuration cfg D) = step /\
  (forall c, calls !! 0%nat = Some c -> c.1 = 0%Q) /\
  (forall (k : nat) (c c' : float64 * float64),
      calls !! k = Some c -> calls !! S k = Some c' -> c'.1 = (c.1 + step)%Q).
Proof.
  intros Hprobe Hrun O C step.
  assert (chunkStep (chunkDuration cfg D) = step) as HS.
  { rewrite chunkStep_step_of, chunkDuration_cases. reflexivity. }
  destruct (FingerprintAudioChunked_outcome _ _ _ _ _ _ _ _ _ _ _ _ Hprobe Hrun)
    as [Hchain _].
  rewrite HS in Hchain. split; [exact HS |]. split.
  - intros c Hc. destruct calls as [| c0 calls0]; [discriminate |].
    injection Hc as <-. exact (proj1 Hchain).
  - intros k c c'. now apply chunk_chain_successive with (start := 0%Q).
Qed.


(** C2, witness: the audiobook preset (C = 120 s) on a 200-second file
    steps by 120 - 5 seconds. *)
Lemma chunk_step_overlap_witness :
  chunkStep (chunkDuration DefaultAudiobookConfig 200) = (120 - 5)%Q.
Proof.
  eapply (chunk_step_overlap no_Cos no_FFT no_Abs probe_200 extract_any
            read_silence "book.mp3" 1 DefaultAudiobookConfig 200).
  - reflexivity.
  - vm_compute. reflexivity.
Defined.

(** C2 as stated fails: with the audiobook preset (C = 120 s) on a
    200-second file the second chunk starts at 115 s = C - O, whereas
    max(C - O, C) is 120 s. *)
Lemma chunk_step_not_max :
  fst (FingerprintAudioChunked no_Cos no_FFT no_Abs probe_200 extract_any
         read_silence "book.mp3" 1 DefaultAudiobookConfig)
  = [(0, 120); (115, 85)]%Q /\
  (step_by_max (ChunkDurationSec DefaultAudiobookConfig) == 120)%Q /\
  ~ (115 == 0 + step_by_max (ChunkDurationSec DefaultAudiobookConfig))%Q.
Proof.
  split; [vm_compute; reflexivity |]. split; [reflexivity |].
  intros H. vm_compute in H. discriminate H.
Qed.

(** ** Indexing: all or nothing *)


Lemma filter_none {A : Type} (P : A -> Prop) `{!forall x, Decision (P x)}
    (l : list A) :
  Forall (fun x => ~ P x) l -> filter P l = [].
Proof.
  induction 1 as [| x l Hx Hl IH]; [reflexivity |].
  now rewrite filter_cons_False, IH.
Qed.






(** * Further properties of the code *)

(** ** Downsample: what it rejects, what it preserves *)

Lemma Downsample_not_positive (input : list float64)
    (originalSampleRate targetSampleRate : Z) :
  targetSampleRate <= 0 \/ originalSampleRate <= 0 ->
  Downsample input originalSampleRate targetSampleRate
  = Err (errorNew "sample rates must be positive").
Proof.
  intros Hbad. unfold Downsample.
  destruct (Z.leb_spec targetSampleRate 0); [reflexivity |].
  destruct (Z.leb_spec originalSampleRate 0); [reflexivity | lia].
Qed.

Lemma Downsample_upsampling (input : list float64)
    (originalSampleRate targetSampleRate : Z) :
  0 < targetSampleRate -> 0 < originalSampleRate ->
  originalSampleRate < targetSampleRate ->
  Downsample input originalSampleRate targetSampleRate
  = Err (errorNew
      "target sample rate must be less than or equal to original sample rate").
Proof.
  intros Ht Ho Hup. unfold Downsample.
  destruct (Z.leb_spec targetSampleRate 0); [lia |].
  destruct (Z.leb_spec originalSampleRate 0); [lia |]. cbn [orb].
  destruct (Z.ltb_spec originalSampleRate targetSampleRate); [reflexivity | lia].
Qed.

(** X1: Downsample returns "sample rates must be positive" when a rate is
    not positive, the upsampling error when the target exceeds the
    original rate, and a list in every other case; the third error of the
    source ("invalid ratio") is never returned, and the call never
    panics. *)
Theorem Downsample_error_cases (input : list float64)
    (originalSampleRate targetSampleRate : Z) :
  (targetSampleRate <= 0 \/ originalSampleRate <= 0 ->
   Downsample input originalSampleRate targetSampleRate
   = Err (errorNew "sample rates must be positive")) /\
  (0 < targetSampleRate -> 0 < originalSampleRate ->
   originalSampleRate < targetSampleRate ->
   Downsample input originalSampleRate targetSampleRate
   = Err (errorNew
       "target sample rate must be less than or equal to original sample rate")) /\
  (0 < targetSampleRate <= originalSampleRate ->
   exists out, Downsample input originalSampleRate targetSampleRate = Ok out) /\
  Downsample input originalSampleRate targetSampleRate
  <> Err (errorNew "invalid ratio calculated from sample rates") /\
  Downsample input originalSampleRate targetSampleRate <> Panic.
Proof.
  split; [apply Downsample_not_positive |].
  split; [apply Downsample_upsampling |].
  split; [intros [Ht Hle]; eexists; apply Downsample_means; lia |].
  split; [| apply Downsample_no_timeout].
  destruct (Z.le_gt_cases targetSampleRate 0) as [Ht | Ht];
    [rewrite Downsample_not_positive by lia; discriminate |].
  destruct (Z.le_gt_cases originalSampleRate 0) as [Ho | Ho];
    [rewrite Downsample_not_positive by lia; discriminate |].
  destruct (Z.lt_ge_cases originalSampleRate targetSampleRate) as [Hup | Hle];
    [rewrite Downsample_upsampling by lia; discriminate |].
  rewrite Downsample_means by lia. discriminate.
Qed.

(** X1, witness. *)
Lemma Downsample_error_cases_witness :
  Downsample [1; 2]%Q 44100 0 = Err (errorNew "sample rates must be positive") /\
  Downsample [1; 2]%Q 8000 44100
  = Err (errorNew
      "target sample rate must be less than or equal to original sample rate") /\
  exists out, Downsample [1; 2]%Q 44100 5512 = Ok out.
Proof.
  destruct (Downsample_error_cases [1; 2]%Q 44100 0) as (H1 & _).
  destruct (Downsample_error_cases [1; 2]%Q 8000 44100) as (_ & H2 & _).
  destruct (Downsample_error_cases [1; 2]%Q 44100 5512) as (_ & _ & H3 & _).
  split; [apply H1; lia |]. split; [apply H2; lia |]. apply H3. lia.
Defined.

Lemma fold_left_Qplus_bounds (lo hi : float64) (b : list float64) :
  Forall (fun x => (lo <= x <= hi)%Q) b ->
  forall a : float64,
    (a + inject_Z (len b) * lo <= fold_left Qplus b a
     <= a + inject_Z (len b) * hi)%Q.
Proof.
  induction 1 as [| x b [Hlo Hhi] Hb IH]; intros a.
  - change (inject_Z (len (@nil float64))) with 0%Q. cbn [fold_left]. lra.
  - cbn [fold_left]. specialize (IH (a + x)%Q).
    replace (len (x :: b)) with (len b + 1) by (unfold len; cbn [length]; lia).
    rewrite inject_Z_plus. change (inject_Z 1) with 1%Q. lra.
Qed.

Lemma mean_bounds (lo hi : float64) (b : list float64) :
  b <> [] -> Forall (fun x => (lo <= x <= hi)%Q) b -> (lo <= mean b <= hi)%Q.
Proof.
  intros Hne Hb. pose proof (fold_left_Qplus_bounds lo hi b Hb 0) as [Hl Hh].
  assert (0 < inject_Z (len b))%Q as Hn.
  { change 0%Q with (inject_Z 0). rewrite <- Zlt_Qlt.
    destruct b; [contradiction | unfold len; cbn [length]; lia]. }
  unfold mean. split.
  - apply Qle_shift_div_l; [exact Hn | lra].
  - apply Qle_shift_div_r; [exact Hn | lra].
Qed.





(** X3: at equal rates (ratio 1) Downsample returns its input, sample for
    sample. *)
Theorem Downsample_same_rate (input : list float64) (sampleRate : Z) :
  0 < sampleRate ->
  exists out, Downsample input sampleRate sampleRate = Ok out /\
              Forall2 Qeq out input.
Proof.
  intros Hs. eexists. split; [apply Downsample_means; lia |].
  rewrite Z.div_same by lia.
  apply Forall2_same_length_lookup_2.
  - unfold bucket_means, bucket_count. rewrite length_fmap, length_seq.
    unfold len. rewrite Z.div_1_r. lia.
  - intros i y x Hy Hx. unfold bucket_means in Hy.
    rewrite list_lookup_fmap in Hy.
    destruct (seq 0 (bucket_count 1 input) !! i) as [k |] eqn:Hk; [| discriminate].
    apply lookup_seq in Hk as [-> _]. cbn [Nat.add fmap option_fmap option_map] in Hy.
    injection Hy as <-.
    unfold bucket. change (Z.to_nat 1) with 1%nat. rewrite Nat.mul_1_r.
    rewrite (drop_S _ _ _ Hx). cbn [take]. rewrite take_0. unfold mean, len.
    cbn [fold_left length]. change (inject_Z (Z.of_nat 1)) with 1%Q.
    unfold Qdiv. change (/ 1)%Q with 1%Q. ring.
Qed.

(** X3, witness. *)
Lemma Downsample_same_rate_witness :
  exists out, Downsample [3; 1; 4]%Q 5512 5512 = Ok out /\
              Forall2 Qeq out [3; 1; 4]%Q.
Proof. apply Downsample_same_rate. lia. Defined.

(** ** LowPassFilter *)










(** ** Spectrogram: errors, panics, frame widths *)

Section SpectrogramMore.

Variable math_Cos : float64 -> float64.
Variable FFT : list float64 -> list (float64 * float64).
Variable cmplx_Abs : float64 * float64 -> float64.


Lemma hanning_length (windowSize : Z) :
  0 <= windowSize -> len (hanning math_Cos windowSize) = windowSize.
Proof.
  intros HW. unfold hanning, len. rewrite length_map, length_seqZ. lia.
Qed.

Lemma Spectrogram_frame_width (ds : list float64) (windowSize start : Z) :
  (forall l, length (FFT l) = length l) ->
  0 <= windowSize -> 0 <= start -> start + windowSize <= len ds ->
  len (Spectrogram_frame FFT cmplx_Abs (hanning math_Cos windowSize) ds
         windowSize start)
  = windowSize ÷ 2.
Proof.
  intros Hfft HW Hs Hin. unfold Spectrogram_frame. cbv zeta.
  pose proof (hanning_length windowSize HW) as Hh.
  set (frame := zip_with Qmult (take (Z.to_nat windowSize) (drop (Z.to_nat start) ds))
                  (hanning math_Cos windowSize)).
  assert (length frame = Z.to_nat windowSize) as Hframe.
  { subst frame. rewrite length_zip_with, length_take, length_drop.
    unfold len in *. lia. }
  assert (len (FFT frame) = windowSize) as Hlen.
  { unfold len. rewrite Hfft, Hframe. lia. }
  rewrite Hlen. unfold len. rewrite length_map, length_take, Hfft, Hframe.
  rewrite Z.quot_div_nonneg by lia.
  assert (0 <= windowSize / 2) by (apply Z.div_pos; lia).
  assert (windowSize / 2 <= windowSize) by (apply Z.div_le_upper_bound; lia).
  lia.
Qed.

(** X7: when the transform returns as many bins as it is given samples,
    every frame of a spectrogram holds WindowSize/2 magnitudes. *)
Theorem Spectrogram_frame_widths (sample : list float64) (sampleRate : Z)
    (cfg : FingerprintConfig) (sp : list (list float64)) :
  (forall l, length (FFT l) = length l) ->
  0 <= WindowSize cfg -> 1 <= HopSize cfg ->
  Spectrogram math_Cos FFT cmplx_Abs sample sampleRate cfg = Ok sp ->
  Forall (fun frame => len frame = WindowSize cfg ÷ 2) sp.
Proof.
  intros Hfft HW HH. unfold Spectrogram.
  destruct (DSPRatio cfg =? 0); [discriminate |].
  destruct (Downsample _ _ _) as [ds | | |]; try discriminate.
  rewrite Spectrogram_frames_count by lia. intros [= <-].
  apply Forall_fmap, Forall_forall. intros k Hk. cbn beta.
  apply elem_of_seq in Hk. unfold frame_count in Hk.
  destruct (Z.leb_spec (WindowSize cfg) (len ds)) as [Hle | Hgt]; [| lia].
  pose proof (Z.div_mod (len ds - WindowSize cfg) (HopSize cfg) ltac:(lia)) as Hdm.
  pose proof (Z.mod_pos_bound (len ds - WindowSize cfg) (HopSize cfg) ltac:(lia)).
  assert (0 <= (len ds - WindowSize cfg) / HopSize cfg) by (apply Z.div_pos; lia).
  apply Spectrogram_frame_width; [exact Hfft | lia | lia | nia].
Qed.

(** X8: a HopSize that is not positive never yields a frame: Spectrogram
    panics (division by zero in the capacity, negative capacity, or a
    slice at a negative start) or, when the input is shorter than the
    window, returns the empty spectrogram. *)
Theorem Spectrogram_bad_hop (sample : list float64) (sampleRate : Z)
    (cfg : FingerprintConfig) (sp : list (list float64)) :
  HopSize cfg <= 0 ->
  Spectrogram math_Cos FFT cmplx_Abs sample sampleRate cfg = Ok sp ->
  sp = [].
Proof.
  intros HH. unfold Spectrogram.
  destruct (DSPRatio cfg =? 0); [discriminate |].
  destruct (Downsample _ _ _) as [ds | | |]; try discriminate.
  unfold Spectrogram_frames.
  destruct (Z.ltb_spec (WindowSize cfg) 0); [discriminate |].
  destruct (Z.eqb_spec (HopSize cfg) 0); [discriminate |].
  destruct (Z.ltb_spec (len ds ÷ HopSize cfg) 0); [discriminate |].
  replace (length ds + 2)%nat with (S (S (length ds))) by lia.
  cbn [Spectrogram_loop].
  destruct (Z.leb_spec (0 + WindowSize cfg) (len ds)); [| now intros [= <-]].
  cbn [Z.ltb Z.compare].
  destruct (Z.leb_spec (0 + HopSize cfg + WindowSize cfg) (len ds)); [| lia].
  destruct (Z.ltb_spec (0 + HopSize cfg) 0); [discriminate | lia].
Qed.

End SpectrogramMore.


(** X7, witness: the tone_config (window 4, hop 1) on five samples at
    rate 4 gives frames of 2 magnitudes. *)
Lemma Spectrogram_frame_widths_witness :
  exists sp,
    Spectrogram no_Cos no_FFT no_Abs (repeat 1%Q 5) 4 tone_config = Ok sp /\
    Forall (fun frame => len frame = 2) sp.
Proof.
  eexists. split; [vm_compute; reflexivity |].
  refine (Spectrogram_frame_widths no_Cos no_FFT no_Abs (repeat 1%Q 5) 4
            tone_config _ _ _ _ _).
  - intros l. unfold no_FFT. apply length_map.
  - cbn. lia.
  - cbn. lia.
  - vm_compute. reflexivity.
Defined.

(** X8, witness: a hop of -5 on an input shorter than the window. *)
Lemma Spectrogram_bad_hop_witness :
  Spectrogram no_Cos no_FFT no_Abs [1; 2; 3]%Q 8 (mkConfig 1 8 (-5) 3 2 [] 0)
  = Ok [].
Proof.
  assert (exists sp, Spectrogram no_Cos no_FFT no_Abs [1; 2; 3]%Q 8
                       (mkConfig 1 8 (-5) 3 2 [] 0) = Ok sp) as [sp Hsp]
    by (eexists; vm_compute; reflexivity).
  rewrite Hsp. f_equal.
  eapply (Spectrogram_bad_hop no_Cos no_FFT no_Abs); [| exact Hsp]. cbn. lia.
Defined.

(** ** ExtractPeaks: panics, silence, how many peaks, where they sit *)

Lemma forallb_false_exists {A : Type} (f : A -> bool) (l : list A) :
  forallb f l = false -> exists x, x ∈ l /\ f x = false.
Proof.
  induction l as [| x l IH]; [discriminate |]. cbn [forallb].
  destruct (f x) eqn:E.
  - intros H. destruct (IH H) as (y & Hy & Hfy).
    exists y. split; [now apply list_elem_of_further | exact Hfy].
  - intros _. exists x. split; [apply list_elem_of_here | exact E].
Qed.

(** X9: ExtractPeaks panics exactly when, in some frame, a band with a
    negative lower bin is non-empty after its upper end is clamped to
    WindowSize/2 and to the frame length; in every other case it returns a
    list of peaks, and it never returns an error. *)
Theorem ExtractPeaks_panic_iff (spectrogram : list (list float64))
    (audioDuration : float64) (sampleRate : Z) (cfg : FingerprintConfig) :
  (ExtractPeaks spectrogram audioDuration sampleRate cfg = Panic <->
   exists frame band,
     frame ∈ spectrogram /\ band ∈ FreqBands cfg /\
     band.1 < 0 /\
     band.1 < Z.min (Z.min band.2 (WindowSize cfg ÷ 2)) (len frame)) /\
  (ExtractPeaks spectrogram audioDuration sampleRate cfg <> Panic ->
   exists peaks, ExtractPeaks spectrogram audioDuration sampleRate cfg = Ok peaks).
Proof.
  rewrite ExtractPeaks_result. split.
  - destruct (scannable spectrogram cfg) eqn:Hscan; split.
    + discriminate.
    + intros (frame & band & Hf & Hb & Hneg & Hne). exfalso.
      unfold scannable in Hscan. rewrite forallb_forall in Hscan.
      apply list_elem_of_In in Hf. specialize (Hscan frame Hf).
      rewrite forallb_forall in Hscan.
      apply list_elem_of_In in Hb. specialize (Hscan band Hb).
      unfold band_scannable, band_hi in Hscan.
      apply orb_true_iff in Hscan as [H | H]; apply Z.leb_le in H; lia.
    + intros _. unfold scannable in Hscan.
      apply forallb_false_exists in Hscan as (frame & Hf & Hframe).
      apply forallb_false_exists in Hframe as (band & Hb & Hband).
      exists frame, band. split; [exact Hf |]. split; [exact Hb |].
      unfold band_scannable, band_hi in Hband.
      apply orb_false_iff in Hband as [H1 H2].
      apply Z.leb_gt in H1, H2. lia.
    + reflexivity.
  - destruct (scannable spectrogram cfg); [eauto | congruence].
Qed.

Lemma fold_best_step_silent (l : list (Z * float64)) :
  Forall (fun e => (e.2 <= 0)%Q) l ->
  fold_left best_step l (mkBandMax 0 0) = mkBandMax 0 0.
Proof.
  induction 1 as [| e l He Hl IH]; [reflexivity |].
  cbn [fold_left]. unfold best_step at 2. cbn [mag].
  now apply fgt_false in He as ->.
Qed.

Lemma frame_peaks_silent (cfg : FingerprintConfig)
    (frameDuration freqResolution : float64) (halfWindow frameIdx : Z)
    (frame : list float64) :
  Forall (fun x => (x <= 0)%Q) frame ->
  frame_peaks scan_max cfg frameDuration freqResolution halfWindow frameIdx frame
  = [].
Proof.
  intros Hsilent. unfold frame_peaks. cbv zeta.
  assert (Forall (fun b => b = mkBandMax 0 0)
            (frame_maxima scan_max cfg halfWindow frame)) as HM.
  { apply Forall_forall. intros b Hb. unfold frame_maxima in Hb.
    apply list_elem_of_omap in Hb as (band & _ & Hmax).
    unfold scan_max in Hmax.
    destruct (band_entries halfWindow frame band) as [| e rest] eqn:He;
      [discriminate |].
    injection Hmax as <-.
    change (fold_left best_step (e :: rest) (mkBandMax 0 0) = mkBandMax 0 0).
    apply fold_best_step_silent.
    rewrite <- He. apply Forall_forall. intros [idx x] Hin.
    apply band_entries_bin in Hin as [_ Hx].
    rewrite Forall_forall in Hsilent. now apply Hsilent. }
  set (M := frame_maxima scan_max cfg halfWindow frame) in *.
  destruct M as [| b0 M0] eqn:EM; [reflexivity |].
  assert (0 <= mean (map mag (b0 :: M0)) <= 0)%Q as Havg.
  { apply mean_bounds; [discriminate |]. apply Forall_fmap.
    eapply Forall_impl; [exact HM |]. intros b ->. cbn. lra. }
  rewrite filter_none; [reflexivity |].
  eapply Forall_impl; [exact HM |]. intros b -> Hgt.
  apply Is_true_true, fgt_true in Hgt. cbn [mag] in Hgt. lra.
Qed.

Lemma frames_peaks_silent (cfg : FingerprintConfig)
    (frameDuration freqResolution : float64) (halfWindow : Z)
    (frames : list (list float64)) :
  Forall (Forall (fun x => (x <= 0)%Q)) frames ->
  forall frameIdx : Z,
    frames_peaks scan_max cfg frameDuration freqResolution halfWindow frameIdx
      frames = [].
Proof.
  induction 1 as [| frame frames Hf Hfs IH]; intros frameIdx; [reflexivity |].
  cbn [frames_peaks]. now rewrite frame_peaks_silent, IH.
Qed.

(** X10: silence gives no peak.  When no magnitude of the spectrogram is
    positive (and no band starts at a negative bin), every band maximum is
    0, none exceeds the mean 0, and ExtractPeaks returns the empty list. *)
Theorem ExtractPeaks_silence (spectrogram : list (list float64))
    (audioDuration : float64) (sampleRate : Z) (cfg : FingerprintConfig) :
  Forall (fun band : Z * Z => 0 <= band.1) (FreqBands cfg) ->
  Forall (Forall (fun x => (x <= 0)%Q)) spectrogram ->
  ExtractPeaks spectrogram audioDuration sampleRate cfg = Ok [].
Proof.
  intros Hbands Hsilent. rewrite ExtractPeaks_result.
  rewrite scannable_nonneg_bands by exact Hbands. f_equal.
  unfold peaks_of. cbv zeta. now apply frames_peaks_silent.
Qed.

(** X10, witness: two silent frames under the music preset. *)
Lemma ExtractPeaks_silence_witness :
  ExtractPeaks [repeat 0%Q 512; repeat 0%Q 512] 1 44100 DefaultMusicConfig = Ok [].
Proof.
  apply ExtractPeaks_silence.
  - repeat constructor; cbn; lia.
  - assert (Forall (fun x => (x <= 0)%Q) (repeat 0%Q 512)) as Hzero.
    { apply Forall_forall. intros x Hx. apply list_elem_of_In in Hx.
      apply repeat_spec in Hx as ->. apply Qle_refl. }
    constructor; [exact Hzero |]. constructor; [exact Hzero | constructor].
Defined.







Lemma band_entries_lookup (halfWindow : Z) (frame : list float64) (band : Z * Z)
    (idx : Z) (x : float64) :
  0 <= band.1 ->
  (idx, x) ∈ band_entries halfWindow frame band <->
  band.1 <= idx < band_hi halfWindow frame band /\
  frame !! Z.to_nat idx = Some x.
Proof.
  intros Hlo. unfold band_entries. cbv zeta.
  set (n := Z.to_nat (band_hi halfWindow frame band - band.1)). split.
  - intros Hin. apply list_elem_of_lookup in Hin as [i Hi].
    apply lookup_zip_with_Some in Hi as (j & y & [= <- <-] & Hj & Hy).
    apply lookup_seqZ in Hj as [-> Hlt].
    apply lookup_take_Some in Hy as [Hy _]. rewrite lookup_drop in Hy.
    split; [lia |].
    now replace (Z.to_nat (band.1 + Z.of_nat i)) with (Z.to_nat band.1 + i)%nat by lia.
  - intros [Hrange Hx]. apply list_elem_of_lookup.
    exists (Z.to_nat (idx - band.1)).
    apply lookup_zip_with_Some. exists idx, x. split; [reflexivity |]. split.
    + apply lookup_seqZ. lia.
    + apply lookup_take_Some. split; [| lia]. rewrite lookup_drop.
      now replace (Z.to_nat band.1 + Z.to_nat (idx - band.1))%nat
        with (Z.to_nat idx) by lia.
Qed.

Lemma frames_peaks_elements (bmax : list (Z * float64) -> option bandMax)
    (cfg : FingerprintConfig) (frameDuration freqResolution : float64)
    (halfWindow : Z) (frames : list (list float64)) (p : Peak) :
  forall frameIdx : Z,
    p ∈ frames_peaks bmax cfg frameDuration freqResolution halfWindow frameIdx
          frames ->
    exists (i : nat) (frame : list float64) (b : bandMax),
      frames !! i = Some frame /\
      b ∈ frame_maxima bmax cfg halfWindow frame /\
      (mean (map mag (frame_maxima bmax cfg halfWindow frame)) < mag b)%Q /\
      p = {| Time := (float64_of_int (frameIdx + Z.of_nat i) * frameDuration)%Q;
             Freq := (float64_of_int (freqIdx b) * freqResolution)%Q |}.
Proof.
  induction frames as [| frame frames IH]; intros frameIdx Hp.
  - cbn in Hp. now apply elem_of_nil in Hp.
  - cbn [frames_peaks] in Hp. apply elem_of_app in Hp as [Hp | Hp].
    + unfold frame_peaks in Hp. cbv zeta in Hp.
      apply list_elem_of_fmap in Hp as (b & -> & Hb).
      apply list_elem_of_filter in Hb as [Hgt Hb].
      exists 0%nat, frame, b. split; [reflexivity |]. split; [exact Hb |].
      split; [now apply fgt_true, Is_true_true |].
      now rewrite Z.add_0_r.
    + destruct (IH (frameIdx + 1) Hp) as (i & fr & b & Hi & Hb & Hgt & ->).
      exists (S i), fr, b. split; [exact Hi |]. split; [exact Hb |].
      split; [exact Hgt |].
      now replace (frameIdx + Z.of_nat (S i)) with (frameIdx + 1 + Z.of_nat i) by lia.
Qed.

(** X12: every peak ExtractPeaks emits sits on a real maximum: it comes
    from a frame k and a configured band, its bin lies in that band (below
    WindowSize/2), the magnitude at the bin is positive and no bin of the
    clamped band has a larger one; its time is k times the frame duration
    and its frequency the bin times the frequency resolution. *)
Theorem ExtractPeaks_peak_is_maximum (spectrogram : list (list float64))
    (audioDuration : float64) (sampleRate : Z) (cfg : FingerprintConfig)
    (peaks : list Peak) (p : Peak) :
  ExtractPeaks spectrogram audioDuration sampleRate cfg = Ok peaks ->
  p ∈ peaks ->
  exists (k : nat) (frame : list float64) (band : Z * Z) (idx : Z) (x : float64),
    spectrogram !! k = Some frame /\ band ∈ FreqBands cfg /\
    0 <= band.1 <= idx /\ idx < band.2 /\ idx < WindowSize cfg ÷ 2 /\
    frame !! Z.to_nat idx = Some x /\ (0 < x)%Q /\
    (forall (j : Z) (y : float64),
        band.1 <= j < Z.min (Z.min band.2 (WindowSize cfg ÷ 2)) (len frame) ->
        frame !! Z.to_nat j = Some y -> (y <= x)%Q) /\
    Time p = (float64_of_int (Z.of_nat k)
              * (audioDuration / float64_of_int (len spectrogram)))%Q /\
    Freq p = (float64_of_int idx
              * (float64_of_int sampleRate / float64_of_int (DSPRatio cfg)
                 / float64_of_int (WindowSize cfg)))%Q.
Proof.
  rewrite ExtractPeaks_result.
  destruct (scannable spectrogram cfg) eqn:Hscan; [| discriminate].
  intros [= <-] Hp. unfold peaks_of in Hp. cbv zeta in Hp.
  apply frames_peaks_elements in Hp as (k & frame & b & Hk & Hb & Hgt & ->).
  set (hw := WindowSize cfg ÷ 2) in *.
  assert (0 < mag b)%Q as Hpos.
  { eapply Qle_lt_trans; [| exact Hgt]. apply mean_nonneg, Forall_fmap.
    clear Hb Hgt. apply Forall_forall. intros b' Hb'. unfold frame_maxima in Hb'.
    apply list_elem_of_omap in Hb' as (band & _ & Hmax).
    eapply scan_max_nonneg. exact Hmax. }
  unfold frame_maxima in Hb.
  apply list_elem_of_omap in Hb as (band & Hband & Hmax).
  assert (band_scannable hw frame band = true) as Hsb.
  { unfold scannable in Hscan. rewrite forallb_forall in Hscan.
    assert (In frame spectrogram) as Hf
      by (apply list_elem_of_In; eapply list_elem_of_lookup_2; exact Hk).
    specialize (Hscan frame Hf). rewrite forallb_forall in Hscan.
    apply Hscan. now apply list_elem_of_In. }
  unfold scan_max in Hmax.
  destruct (band_entries hw frame band) as [| e rest] eqn:He; [discriminate |].
  injection Hmax as Hmax.
  change (fold_left best_step (e :: rest) (mkBandMax 0 0) = b) in Hmax.
  pose proof (fold_best_step_from (e :: rest) (mkBandMax 0 0)) as Hfrom.
  pose proof (fold_best_step_max (e :: rest) (mkBandMax 0 0)) as Hle.
  cbv zeta in Hfrom. rewrite Hmax in Hfrom, Hle.
  destruct Hfrom as [-> | Hin]; [now apply Qlt_irrefl in Hpos |].
  rewrite <- He in Hin, Hle.
  assert (0 <= band.1) as Hlo.
  { unfold band_scannable in Hsb. apply orb_true_iff in Hsb as [H | H];
      apply Z.leb_le in H; [| exact H].
    apply band_entries_bin in Hin as [Hin _]. lia. }
  apply band_entries_lookup in Hin as [Hrange Hx]; [| exact Hlo].
  exists k, frame, band, (freqIdx b), (mag b).
  split; [exact Hk |]. split; [exact Hband |].
  unfold band_hi in Hrange.
  split; [lia |]. split; [lia |]. split; [lia |].
  split; [exact Hx |]. split; [exact Hpos |]. split.
  - intros j y Hj Hy. rewrite Forall_forall in Hle.
    apply (Hle (j, y)). apply band_entries_lookup; [exact Hlo |].
    unfold band_hi. now split.
  - cbn [Time Freq]. now rewrite Z.add_0_l.
Qed.

(** X12, witness: the first peak of [three_frames] is bin 1 of frame 0,
    where the magnitude is 1. *)
Lemma ExtractPeaks_peak_is_maximum_witness :
  exists (k : nat) (frame : list float64) (band : Z * Z) (idx : Z) (x : float64),
    three_frames !! k = Some frame /\ band ∈ FreqBands two_band_config /\
    0 <= band.1 <= idx /\ idx < band.2 /\ idx < WindowSize two_band_config ÷ 2 /\
    frame !! Z.to_nat idx = Some x /\ (0 < x)%Q /\
    (forall (j : Z) (y : float64),
        band.1 <= j
        < Z.min (Z.min band.2 (WindowSize two_band_config ÷ 2)) (len frame) ->
        frame !! Z.to_nat j = Some y -> (y <= x)%Q) /\
    (inject_Z 0 * (3 / inject_Z 3))%Q
    = (float64_of_int (Z.of_nat k) * (3 / float64_of_int (len three_frames)))%Q /\
    (inject_Z 1 * (inject_Z 8 / inject_Z 1 / inject_Z 8))%Q
    = (float64_of_int idx
       * (float64_of_int 8 / float64_of_int (DSPRatio two_band_config)
          / float64_of_int (WindowSize two_band_config)))%Q.
Proof.
  refine (ExtractPeaks_peak_is_maximum three_frames 3 8 two_band_config _
            {| Freq := (inject_Z 1 * (inject_Z 8 / inject_Z 1 / inject_Z 8))%Q;
               Time := (inject_Z 0 * (3 / inject_Z 3))%Q |} eq_refl _).
  apply list_elem_of_here.
Defined.

(** ** createAddress: value, collisions, time shifts *)








(** ** Fingerprint: offsets, small inputs, collisions *)

Lemma store_pair_address (peaks : list Peak) (songID : Z)
    (fingerprints : gmap Z Couple) (ij : Z * Z) :
  match pair_address peaks ij with
  | Some address =>
      exists anchor target,
        peaks !! Z.to_nat ij.1 = Some anchor /\
        peaks !! Z.to_nat ij.2 = Some target /\
        address = createAddress anchor target /\
        store_pair peaks songID fingerprints ij
        = <[address := {| AnchorTimeMs := uint32_of_float64 (Time anchor * 1000)%Q;
                          SongID := songID |}]> fingerprints
  | None => store_pair peaks songID fingerprints ij = fingerprints
  end.
Proof.
  unfold pair_address, store_pair.
  destruct (peaks !! Z.to_nat ij.1) as [anchor |]; [| reflexivity].
  destruct (peaks !! Z.to_nat ij.2) as [target |]; [| reflexivity].
  exists anchor, target. now repeat split.
Qed.





Lemma anchor_target_pairs_nil (n zone : Z) :
  n <= 1 \/ zone <= 0 -> anchor_target_pairs n zone = [].
Proof.
  intros Hsmall. unfold anchor_target_pairs.
  assert (forall l : list Z,
             Forall (fun i => 0 <= i < n) l ->
             (i ← l; (fun j => (i, j)) <$> target_indices n zone i) = []) as Hbind.
  { induction 1 as [| i l Hi Hl IH]; [reflexivity |].
    cbn [mbind list_bind]. change (foldr _ _ _) with
      (i ← l; (fun j => (i, j)) <$> target_indices n zone i).
    rewrite IH. unfold target_indices.
    replace (seqZ (i + 1) (Z.min (i + zone) (n - 1) - i)) with (@nil Z);
      [reflexivity |].
    unfold seqZ.
    now replace (Z.to_nat (Z.min (i + zone) (n - 1) - i)) with 0%nat by lia. }
  apply Hbind. apply Forall_forall. intros i Hi. apply elem_of_seqZ in Hi. lia.
Qed.

(** X16: with fewer than two peaks, or a TargetZoneSize that is not
    positive, there is no pair and Fingerprint returns the empty map. *)
Theorem Fingerprint_no_pairs (peaks : list Peak) (songID : Z)
    (cfg : FingerprintConfig) :
  len peaks <= 1 \/ TargetZoneSize cfg <= 0 ->
  Fingerprint peaks songID cfg = Ok ∅.
Proof.
  intros Hsmall. rewrite Fingerprint_ok. unfold fingerprints_of.
  now rewrite anchor_target_pairs_nil.
Qed.

(** X16, witness: a single peak. *)
Lemma Fingerprint_no_pairs_witness :
  Fingerprint [mkPeak 440 1] 7 DefaultMusicConfig = Ok ∅.
Proof. apply Fingerprint_no_pairs. left. unfold len. cbn [length]. lia. Defined.

Lemma store_pair_last_writer (peaks : list Peak) (songID : Z) (address : Z)
    (couple : Couple) (l : list (Z * Z)) :
  forall fingerprints : gmap Z Couple,
    foldl (store_pair peaks songID) fingerprints l !! address = Some couple ->
    (fingerprints !! address = Some couple /\
     Forall (fun ij => pair_address peaks ij <> Some address) l) \/
    (exists (l1 l2 : list (Z * Z)) (ij : Z * Z) (anchor : Peak),
        l = l1 ++ ij :: l2 /\
        pair_address peaks ij = Some address /\
        peaks !! Z.to_nat ij.1 = Some anchor /\
        couple = {| AnchorTimeMs := uint32_of_float64 (Time anchor * 1000)%Q;
                    SongID := songID |} /\
        Forall (fun ij' => pair_address peaks ij' <> Some address) l2).
Proof.
  induction l as [| ij l IH]; intros fingerprints Hlook; cbn [foldl] in Hlook.
  - left. split; [exact Hlook | constructor].
  - apply IH in Hlook as [[Hhere Hmiss] | (l1 & l2 & ij' & anchor & -> & Ha & Hp & Hc & Hl2)].
    + pose proof (store_pair_address peaks songID fingerprints ij) as Hs.
      destruct (pair_address peaks ij) as [address' |] eqn:Hpa.
      * destruct Hs as (anchor & target & Hp & _ & Haddr & Hs).
        rewrite Hs in Hhere.
        destruct (decide (address' = address)) as [-> | Hne].
        -- rewrite lookup_insert_eq in Hhere. injection Hhere as <-.
           right. exists [], l, ij, anchor. repeat split; try assumption.
        -- rewrite lookup_insert_ne in Hhere by exact Hne.
           left. split; [exact Hhere |]. constructor; [| exact Hmiss].
           rewrite Hpa. congruence.
      * rewrite Hs in Hhere. left. split; [exact Hhere |].
        constructor; [| exact Hmiss]. rewrite Hpa. discriminate.
    + right. exists (ij :: l1), l2, ij', anchor. now repeat split.
Qed.

(** X17: the last writer wins.  The couple Fingerprint returns under an
    address is the one of the last pair, in the order the pairs are
    visited (anchor by anchor, target by target), that has this address:
    it carries the time of that pair's anchor, and no later pair has the
    address. *)
Theorem Fingerprint_last_writer (peaks : list Peak) (songID : Z)
    (cfg : FingerprintConfig) (fingerprints : gmap Z Couple)
    (address : Z) (couple : Couple) :
  Fingerprint peaks songID cfg = Ok fingerprints ->
  fingerprints !! address = Some couple ->
  exists (before after : list (Z * Z)) (i j : Z) (anchor target : Peak),
    (k ← seqZ 0 (len peaks);
     (fun j => (k, j)) <$>
       seqZ (k + 1) (Z.min (k + TargetZoneSize cfg) (len peaks - 1) - k))
    = before ++ (i, j) :: after /\
    peaks !! Z.to_nat i = Some anchor /\ peaks !! Z.to_nat j = Some target /\
    address = createAddress anchor target /\
    couple = {| AnchorTimeMs := uint32_of_float64 (Time anchor * 1000)%Q;
                SongID := songID |} /\
    (forall (i' j' : Z) (anchor' target' : Peak),
        (i', j') ∈ after ->
        peaks !! Z.to_nat i' = Some anchor' ->
        peaks !! Z.to_nat j' = Some target' ->
        createAddress anchor' target' <> address).
Proof.
  rewrite Fingerprint_ok. intros [= <-] Hlook. unfold fingerprints_of in Hlook.
  apply store_pair_last_writer in Hlook
    as [[Hempty _] | (l1 & l2 & [i j] & anchor & Hsplit & Ha & Hp & Hc & Hl2)].
  - rewrite lookup_empty in Hempty. discriminate.
  - unfold pair_address in Ha. cbn [fst snd] in Ha, Hp. rewrite Hp in Ha.
    destruct (peaks !! Z.to_nat j) as [target |] eqn:Ht in Ha; [| discriminate].
    injection Ha as Ha.
    exists l1, l2, i, j, anchor, target.
    split; [exact Hsplit |]. split; [exact Hp |]. split; [exact Ht |].
    split; [now symmetry |]. split; [exact Hc |].
    intros i' j' anchor' target' Hin Ha' Ht' Heq.
    rewrite Forall_forall in Hl2. apply (Hl2 (i', j') Hin).
    unfold pair_address. cbn [fst snd]. now rewrite Ha', Ht', Heq.
Qed.

(** X17, witness: three peaks on one frequency, 1 s apart, zone 1: the
    pairs (0,1) and (1,2) share an address, and the map keeps 1000 ms, the
    time of the later anchor. *)
Lemma Fingerprint_last_writer_witness :
  exists (before after : list (Z * Z)) (i j : Z) (anchor target : Peak),
    (k ← seqZ 0 (len same_tone_peaks);
     (fun j => (k, j)) <$>
       seqZ (k + 1) (Z.min (k + 1) (len same_tone_peaks - 1) - k))
    = before ++ (i, j) :: after /\
    same_tone_peaks !! Z.to_nat i = Some anchor /\
    same_tone_peaks !! Z.to_nat j = Some target /\
    createAddress (mkPeak 100 0) (mkPeak 100 1) = createAddress anchor target /\
    mkCouple 1000 7
    = {| AnchorTimeMs := uint32_of_float64 (Time anchor * 1000)%Q; SongID := 7 |} /\
    (forall (i' j' : Z) (anchor' target' : Peak),
        (i', j') ∈ after ->
        same_tone_peaks !! Z.to_nat i' = Some anchor' ->
        same_tone_peaks !! Z.to_nat j' = Some target' ->
        createAddress anchor' target' <> createAddress (mkPeak 100 0) (mkPeak 100 1)).
Proof.
  apply (Fingerprint_last_writer same_tone_peaks 7 (mkConfig 1 8 8 3 1 [] 0)
           (fingerprints_of same_tone_peaks 7 1)).
  - apply Fingerprint_ok.
  - vm_compute. reflexivity.
Defined.

(** ** The chunked driver: what it asks of the transcoder, what it returns *)

Section DriverMore.

Variable math_Cos : float64 -> float64.
Variable FFT : list float64 -> list (float64 * float64).
Variable cmplx_Abs : float64 * float64 -> float64.
Variable GetAudioDuration : string -> Result float64.
Variable ExtractChunkAsWAV : string -> float64 -> float64 -> Result string.
Variable ReadWavInfo : string -> Result WavInfo.

Variable inputPath : string.
Variable songID : Z.
Variable cfg : FingerprintConfig.

Let chunk := processChunk math_Cos FFT cmplx_Abs ExtractChunkAsWAV ReadWavInfo
               inputPath songID cfg.
Let loop := FingerprintAudioChunked_loop math_Cos FFT cmplx_Abs ExtractChunkAsWAV
              ReadWavInfo.
Let chunked := FingerprintAudioChunked math_Cos FFT cmplx_Abs GetAudioDuration
                 ExtractChunkAsWAV ReadWavInfo inputPath songID cfg.

(** What the loop asks for and how it ends: every call starts before the
    end of the file and asks for [chunk_dur_at] seconds, which is
    positive; when the loop returns a map, the calls all succeeded, the
    map is the merge of theirs, and the next start is at or past the end. *)
Lemma FingerprintAudioChunked_loop_calls
    (duration chunkDur step : float64) (fuel : nat) :
  forall (start : float64) (calls : list (float64 * float64))
         (fingerprints : gmap Z Couple)
         (calls' : list (float64 * float64)) (r : Result (gmap Z Couple)),
    loop fuel inputPath songID cfg duration chunkDur step start calls fingerprints
    = (calls', r) ->
    exists new,
      calls' = calls ++ new /\
      Forall (fun c => (c.1 < duration)%Q /\
                       c.2 = chunk_dur_at duration chunkDur c.1 /\
                       (0 < c.2)%Q) new /\
      (forall m, r = Ok m ->
         exists maps,
           Forall2 (fun c cm => chunk c.1 c.2 = Ok cm) new maps /\
           m = foldl ExtendMap fingerprints maps /\
           ((0 < chunkDur)%Q ->
            (duration <= start + inject_Z (len new) * step)%Q)).
Proof.
  subst loop.
  induction fuel as [| fuel IH]; intros start calls fingerprints calls' r Hrun;
    cbn [FingerprintAudioChunked_loop] in Hrun.
  - exists []. rewrite app_nil_r.
    destruct (flt start duration) eqn:Hguard; injection Hrun as <- <-;
      (split; [reflexivity |]); (split; [constructor |]); intros m Hm;
      [discriminate |].
    injection Hm as <-. exists []. split; [constructor |]. split; [reflexivity |].
    intros _. apply flt_false in Hguard.
    change (inject_Z (len (@nil (float64 * float64)))) with 0%Q. lra.
  - destruct (flt start duration) eqn:Hguard.
    2:{ injection Hrun as <- <-. exists []. rewrite app_nil_r.
        split; [reflexivity |]. split; [constructor |]. intros m [= <-].
        exists []. split; [constructor |]. split; [reflexivity |].
        intros _. apply flt_false in Hguard.
        change (inject_Z (len (@nil (float64 * float64)))) with 0%Q. lra. }
    apply flt_true in Hguard. cbv zeta in Hrun.
    fold (chunk_dur_at duration chunkDur start) in Hrun.
    set (dur := chunk_dur_at duration chunkDur start) in *.
    destruct (fle dur 0) eqn:Hdur.
    { injection Hrun as <- <-. exists []. rewrite app_nil_r.
      split; [reflexivity |]. split; [constructor |]. intros m [= <-].
      exists []. split; [constructor |]. split; [reflexivity |].
      intros HC. exfalso. apply fle_true in Hdur.
      subst dur. unfold chunk_dur_at in Hdur.
      destruct (fgt (start + chunkDur) duration); lra. }
    apply fle_false in Hdur. fold (chunk start dur) in Hrun.
    destruct (chunk start dur) as [chunkFP | e | |] eqn:Hchunk.
    + apply IH in Hrun as (new & -> & Hall & Hok).
      exists ((start, dur) :: new). rewrite <- app_assoc.
      split; [reflexivity |].
      split; [constructor; [now repeat split | exact Hall] |].
      intros m Hm. destruct (Hok m Hm) as (maps & Hmaps & -> & Hend).
      exists (chunkFP :: maps). split; [constructor; [exact Hchunk | exact Hmaps] |].
      split; [reflexivity |]. intros HC. specialize (Hend HC).
      replace (len ((start, dur) :: new)) with (len new + 1)
        by (unfold len; cbn [length]; lia).
      rewrite inject_Z_plus. change (inject_Z 1) with 1%Q. lra.
    + injection Hrun as <- <-. exists [(start, dur)].
      split; [reflexivity |].
      split; [constructor; [now repeat split | constructor] |]. discriminate.
    + injection Hrun as <- <-. exists [(start, dur)].
      split; [reflexivity |].
      split; [constructor; [now repeat split | constructor] |]. discriminate.
    + injection Hrun as <- <-. exists [(start, dur)].
      split; [reflexivity |].
      split; [constructor; [now repeat split | constructor] |]. discriminate.
Qed.

Lemma chunk_chain_start (step : float64) (calls : list (float64 * float64)) :
  forall (start : float64) (k : nat) (c : float64 * float64),
    chunk_chain step start calls -> calls !! k = Some c ->
    (c.1 == start + inject_Z (Z.of_nat k) * step)%Q.
Proof.
  induction calls as [| c0 calls IH]; intros start k c Hchain Hk; [discriminate |].
  destruct Hchain as [Hc0 Hchain]. destruct k as [| k].
  - injection Hk as <-. rewrite Hc0. change (inject_Z (Z.of_nat 0)) with 0%Q. ring.
  - cbn in Hk. rewrite (IH _ _ _ Hchain Hk).
    replace (Z.of_nat (S k)) with (Z.of_nat k + 1) by lia.
    rewrite inject_Z_plus. change (inject_Z 1) with 1%Q. ring.
Qed.

Lemma chunkStep_le (C : float64) : (chunkStep C <= C)%Q.
Proof.
  unfold chunkStep. cbv zeta. destruct (fle (C - overlap) 0); [apply Qle_refl |].
  unfold overlap. lra.
Qed.

Lemma FingerprintAudioChunked_calls (duration : float64)
    (calls : list (float64 * float64)) (r : Result (gmap Z Couple)) :
  GetAudioDuration inputPath = Ok duration ->
  chunked = (calls, r) ->
  let C := chunkDuration cfg duration in
  let step := chunkStep C in
  chunk_chain step 0 calls /\
  Forall (fun c => (c.1 < duration)%Q /\ c.2 = chunk_dur_at duration C c.1 /\
                   (0 < c.2)%Q) calls /\
  (forall m, r = Ok m ->
     exists maps,
       Forall2 (fun c cm => chunk c.1 c.2 = Ok cm) calls maps /\
       m = foldl ExtendMap ∅ maps /\
       ((0 < duration)%Q -> (duration <= inject_Z (len calls) * step)%Q)).
Proof.
  intros Hprobe Hrun C step.
  destruct (FingerprintAudioChunked_outcome _ _ _ _ _ _ _ _ _ _ _ _ Hprobe Hrun)
    as [Hchain _].
  split; [exact Hchain |].
  subst chunked. unfold FingerprintAudioChunked in Hrun. rewrite Hprobe in Hrun.
  cbv zeta in Hrun.
  apply FingerprintAudioChunked_loop_calls in Hrun as (new & -> & Hall & Hok).
  split; [exact Hall |]. intros m Hm.
  destruct (Hok m Hm) as (maps & Hmaps & -> & Hend).
  exists maps. split; [exact Hmaps |]. split; [reflexivity |].
  intros HD. specialize (Hend (chunkDuration_pos cfg duration HD)).
  cbn [app] in Hend |- *. fold C step in Hend. lra.
Qed.

Lemma FingerprintAudioChunked_started (duration : float64)
    (calls : list (float64 * float64)) (r : Result (gmap Z Couple))
    (c : float64 * float64) :
  GetAudioDuration inputPath = Ok duration ->
  chunked = (calls, r) -> c ∈ calls -> (0 < duration)%Q.
Proof.
  intros Hprobe Hrun Hc.
  destruct (FingerprintAudioChunked_calls _ _ _ Hprobe Hrun) as (Hchain & Hall & _).
  destruct calls as [| c0 calls]; [now apply elem_of_nil in Hc |].
  destruct Hchain as [Hc0 _]. apply Forall_cons in Hall as [(Hlt & _) _].
  now rewrite Hc0 in Hlt.
Qed.

(** X18: a file whose duration the probe reports as zero or negative is
    not handed to the transcoder at all, and its fingerprint map is
    empty, with no error. *)
Theorem FingerprintAudioChunked_empty_audio (duration : float64) :
  GetAudioDuration inputPath = Ok duration ->
  (duration <= 0)%Q ->
  chunked = ([], Ok ∅).
Proof.
  intros Hprobe HD. destruct chunked as [calls r] eqn:Hrun.
  destruct calls as [| c calls].
  - subst chunked. unfold FingerprintAudioChunked in Hrun. rewrite Hprobe in Hrun.
    cbv zeta in Hrun.
    destruct (Z.to_nat _) as [| fuel] in Hrun;
      cbn [FingerprintAudioChunked_loop] in Hrun;
      (assert (flt 0 duration = false) as Hguard by now apply flt_false);
      rewrite Hguard in Hrun; now injection Hrun as <-.
  - exfalso.
    assert (0 < duration)%Q
      by (eapply FingerprintAudioChunked_started; [eassumption .. | left]).
    lra.
Qed.

(** X19: every chunk the driver asks the transcoder for lies inside the
    file: it starts at or after 0 and before the end, has a positive
    length of at most the chunk duration, and ends at or before the end
    of the file. *)
Theorem FingerprintAudioChunked_chunks_in_file (duration : float64)
    (calls : list (float64 * float64)) (r : Result (gmap Z Couple)) :
  GetAudioDuration inputPath = Ok duration ->
  chunked = (calls, r) ->
  Forall (fun c => (0 <= c.1)%Q /\ (c.1 < duration)%Q /\ (0 < c.2)%Q /\
                   (c.2 <= chunkDuration cfg duration)%Q /\
                   (c.1 + c.2 <= duration)%Q) calls.
Proof.
  intros Hprobe Hrun.
  destruct (FingerprintAudioChunked_calls _ _ _ Hprobe Hrun) as (Hchain & Hall & _).
  apply Forall_forall. intros c Hc.
  pose proof (FingerprintAudioChunked_started _ _ _ _ Hprobe Hrun Hc) as HD.
  pose proof (chunkStep_pos _ (chunkDuration_pos cfg _ HD)) as Hstep.
  destruct (proj1 (list_elem_of_lookup _ _) Hc) as [k Hk].
  pose proof (chunk_chain_start _ _ _ _ _ Hchain Hk) as Hstart.
  destruct (proj1 (Forall_forall _ _) Hall c Hc) as (Hlt & Hdur & Hpos).
  assert (0 <= inject_Z (Z.of_nat k) * chunkStep (chunkDuration cfg duration))%Q
    as Hk0.
  { apply Qmult_le_0_compat; [| lra].
    change 0%Q with (inject_Z 0). rewrite <- Zle_Qle. lia. }
  split; [lra |]. split; [exact Hlt |]. split; [exact Hpos |].
  rewrite Hdur. unfold chunk_dur_at.
  destruct (fgt (c.1 + chunkDuration cfg duration) duration) eqn:Hcut.
  - apply fgt_true in Hcut. split; lra.
  - apply fgt_false in Hcut. split; lra.
Qed.

(** X20: the chunks cover the file without a gap.  The first starts at
    0; each next one starts after the start of the one before and no
    later than its end; and when the driver returns a map for a file of
    positive duration, the last chunk ends exactly at the end of the
    file. *)
Theorem FingerprintAudioChunked_covers_file (duration : float64)
    (calls : list (float64 * float64)) (r : Result (gmap Z Couple)) :
  GetAudioDuration inputPath = Ok duration ->
  chunked = (calls, r) ->
  (forall c, head calls = Some c -> c.1 = 0%Q) /\
  (forall k c c', calls !! k = Some c -> calls !! S k = Some c' ->
     (c.1 < c'.1)%Q /\ (c'.1 <= c.1 + c.2)%Q) /\
  (forall m, r = Ok m -> (0 < duration)%Q ->
     exists c, last calls = Some c /\ (c.1 + c.2 == duration)%Q).
Proof.
  intros Hprobe Hrun.
  destruct (FingerprintAudioChunked_calls _ _ _ Hprobe Hrun) as (Hchain & Hall & Hok).
  pose proof (chunkStep_le (chunkDuration cfg duration)) as HSC.
  split; [| split].
  - intros c Hc. destruct calls as [| c0 calls]; [discriminate |].
    injection Hc as ->. now destruct Hchain.
  - intros k c c' Hk Hk'.
    pose proof (chunk_chain_successive _ _ _ _ _ _ Hchain Hk Hk') as Hnext.
    assert (c ∈ calls) as Hc by (eapply list_elem_of_lookup_2; eassumption).
    assert (c' ∈ calls) as Hc' by (eapply list_elem_of_lookup_2; eassumption).
    pose proof (FingerprintAudioChunked_started _ _ _ _ Hprobe Hrun Hc) as HD.
    pose proof (chunkStep_pos _ (chunkDuration_pos cfg _ HD)) as Hstep.
    destruct (proj1 (Forall_forall _ _) Hall c Hc) as (_ & Hdur & _).
    destruct (proj1 (Forall_forall _ _) Hall c' Hc') as (Hlt' & _ & _).
    rewrite Hnext in Hlt' |- *. split; [lra |].
    rewrite Hdur. unfold chunk_dur_at.
    destruct (fgt (c.1 + chunkDuration cfg duration) duration); lra.
  - intros m Hm HD. destruct (Hok m Hm) as (maps & _ & _ & Hend).
    specialize (Hend HD).
    pose proof (chunkStep_pos _ (chunkDuration_pos cfg _ HD)) as Hstep.
    destruct calls as [| c0 calls _] using rev_ind.
    { exfalso. change (inject_Z (len (@nil (float64 * float64)))) with 0%Q in Hend.
      lra. }
    exists c0. split; [apply last_snoc |].
    assert ((calls ++ [c0]) !! length calls = Some c0) as Hk
      by (rewrite lookup_app_r, Nat.sub_diag by lia; reflexivity).
    pose proof (chunk_chain_start _ _ _ _ _ Hchain Hk) as Hstart.
    assert (c0 ∈ calls ++ [c0]) as Hc by (eapply list_elem_of_lookup_2; eassumption).
    destruct (proj1 (Forall_forall _ _) Hall c0 Hc) as (Hlt & Hdur & _).
    replace (len (calls ++ [c0])) with (Z.of_nat (length calls) + 1) in Hend
      by (unfold len; rewrite length_app; cbn [length]; lia).
    rewrite inject_Z_plus in Hend. change (inject_Z 1) with 1%Q in Hend.
    rewrite Hdur. unfold chunk_dur_at.
    destruct (fgt (c0.1 + chunkDuration cfg duration) duration) eqn:Hcut.
    + ring.
    + apply fgt_false in Hcut. lra.
Qed.

Lemma foldl_ExtendMap_source (maps : list (gmap Z Couple)) :
  forall (init : gmap Z Couple) (address : Z) (couple : Couple),
    foldl ExtendMap init maps !! address = Some couple ->
    init !! address = Some couple \/
    exists cm, cm ∈ maps /\ cm !! address = Some couple.
Proof.
  induction maps as [| cm0 maps IH]; intros init address couple Hm;
    [now left |].
  cbn [foldl] in Hm. apply IH in Hm as [Hm | (cm & Hcm & Hm)].
  - unfold ExtendMap in Hm. apply lookup_union_Some_raw in Hm as [Hm | [_ Hm]].
    + right. exists cm0. split; [left | exact Hm].
    + now left.
  - right. exists cm. split; [now right | exact Hm].
Qed.

Lemma foldl_ExtendMap_untouched (maps : list (gmap Z Couple)) :
  forall (init : gmap Z Couple) (address : Z),
    Forall (fun cm => cm !! address = None) maps ->
    foldl ExtendMap init maps !! address = init !! address.
Proof.
  induction maps as [| cm0 maps IH]; intros init address Hnone; [reflexivity |].
  apply Forall_cons in Hnone as [H0 Hnone]. cbn [foldl].
  rewrite (IH _ _ Hnone). unfold ExtendMap. now apply lookup_union_r.
Qed.

(** X21: the map of a successful run is the merge of the chunks' maps,
    in order.  Every entry of it is an entry of the map of some chunk;
    and an address that several chunks produced keeps the couple of the
    last chunk that produced it. *)
Theorem FingerprintAudioChunked_merge
    (calls : list (float64 * float64)) (m : gmap Z Couple) :
  chunked = (calls, Ok m) ->
  exists maps : list (gmap Z Couple),
    Forall2 (fun c cm => chunk c.1 c.2 = Ok cm) calls maps /\
    (forall address couple,
        m !! address = Some couple ->
        exists cm, cm ∈ maps /\ cm !! address = Some couple) /\
    (forall before cm after address couple,
        maps = before ++ cm :: after ->
        cm !! address = Some couple ->
        Forall (fun cm' => cm' !! address = None) after ->
        m !! address = Some couple).
Proof.
  intros Hrun.
  destruct (GetAudioDuration inputPath) as [duration | e | |] eqn:Hprobe;
    try (subst chunked; unfold FingerprintAudioChunked in Hrun;
         rewrite Hprobe in Hrun; discriminate).
  destruct (FingerprintAudioChunked_calls _ _ _ Hprobe Hrun) as (_ & _ & Hok).
  destruct (Hok m eq_refl) as (maps & Hmaps & -> & _).
  exists maps. split; [exact Hmaps |]. split.
  - intros address couple Hm.
    apply foldl_ExtendMap_source in Hm as [Hm | Hm]; [| exact Hm].
    now rewrite lookup_empty in Hm.
  - intros before cm after address couple -> Hcm Hafter.
    rewrite foldl_app. cbn [foldl].
    rewrite (foldl_ExtendMap_untouched _ _ _ Hafter).
    unfold ExtendMap at 1. now apply lookup_union_Some_l.
Qed.

(** X22: every couple of the map the driver returns carries the song ID
    the driver was called with, whatever the chunks were. *)
Theorem FingerprintAudioChunked_song_id
    (calls : list (float64 * float64)) (m : gmap Z Couple)
    (address : Z) (couple : Couple) :
  chunked = (calls, Ok m) ->
  m !! address = Some couple ->
  SongID couple = songID.
Proof.
  intros Hrun Hm.
  exact (FingerprintAudioChunked_song_ids _ _ _ _ _ _ _ _ _ _ _ Hrun _ _ Hm).
Qed.

Lemma FingerprintAudioChunked_count (duration : float64)
    (calls : list (float64 * float64)) (m : gmap Z Couple) :
  GetAudioDuration inputPath = Ok duration ->
  (0 < duration)%Q ->
  chunked = (calls, Ok m) ->
  len calls = Qceiling (duration / chunkStep (chunkDuration cfg duration))%Q.
Proof.
  intros Hprobe HD Hrun.
  destruct (FingerprintAudioChunked_calls _ _ _ Hprobe Hrun) as (Hchain & Hall & Hok).
  destruct (Hok m eq_refl) as (maps & _ & _ & Hend). specialize (Hend HD).
  pose proof (chunkStep_pos _ (chunkDuration_pos cfg _ HD)) as Hstep.
  set (step := chunkStep (chunkDuration cfg duration)) in *.
  destruct calls as [| c0 calls _] using rev_ind.
  { exfalso. change (inject_Z (len (@nil (float64 * float64)))) with 0%Q in Hend.
    lra. }
  assert ((calls ++ [c0]) !! length calls = Some c0) as Hk
    by (rewrite lookup_app_r, Nat.sub_diag by lia; reflexivity).
  pose proof (chunk_chain_start _ _ _ _ _ Hchain Hk) as Hstart.
  assert (c0 ∈ calls ++ [c0]) as Hc by (eapply list_elem_of_lookup_2; eassumption).
  destruct (proj1 (Forall_forall _ _) Hall c0 Hc) as (Hlt & _ & _).
  assert (len (calls ++ [c0]) = Z.of_nat (length calls) + 1) as Hlen
    by (unfold len; rewrite length_app; cbn [length]; lia).
  rewrite Hlen in Hend |- *.
  rewrite inject_Z_plus in Hend. change (inject_Z 1) with 1%Q in Hend.
  set (n := Z.of_nat (length calls)) in *.
  assert (inject_Z n < duration / step)%Q as Hlo
    by (apply Qlt_shift_div_l; [exact Hstep | lra]).
  assert (duration / step <= inject_Z (n + 1))%Q as Hhi.
  { apply Qle_shift_div_r; [exact Hstep |].
    rewrite inject_Z_plus. change (inject_Z 1) with 1%Q. lra. }
  pose proof (Qle_ceiling (duration / step)) as Hceil.
  assert (n < Qceiling (duration / step)) by (rewrite Zlt_Qlt; lra).
  apply Qceiling_resp_le in Hhi. rewrite Qceiling_Z in Hhi. lia.
Qed.


Lemma Qceiling_between (x : Q) (n : Z) :
  (inject_Z (n - 1) < x)%Q -> (x <= inject_Z n)%Q -> Qceiling x = n.
Proof.
  intros Hlo Hhi. pose proof (Qle_ceiling x) as Hceil.
  assert (n - 1 < Qceiling x) by (rewrite Zlt_Qlt; lra).
  apply Qceiling_resp_le in Hhi. rewrite Qceiling_Z in Hhi. lia.
Qed.

(** X24: with a chunk duration of 0 (or less) in the config the chunk
    duration is the file's duration, but the step is still 5 s less:
    a file of 10 s or more that is fingerprinted to the end is handed to
    the transcoder twice, once whole and once more for its last 5 s. *)
Theorem FingerprintAudioChunked_whole_file (duration : float64)
    (calls : list (float64 * float64)) (m : gmap Z Couple) :
  (ChunkDurationSec cfg <= 0)%Q ->
  GetAudioDuration inputPath = Ok duration ->
  (10 <= duration)%Q ->
  chunked = (calls, Ok m) ->
  exists c1 c2,
    calls = [c1; c2] /\
    fst c1 = 0%Q /\ (snd c1 == duration)%Q /\
    (fst c2 == duration - 5)%Q /\ (snd c2 == 5)%Q.
Proof.
  intros HC Hprobe HD Hrun.
  assert (0 < duration)%Q as Hpos by lra.
  pose proof (FingerprintAudioChunked_count _ _ _ Hprobe Hpos Hrun) as Hlen.
  destruct (FingerprintAudioChunked_calls _ _ _ Hprobe Hrun) as (Hchain & Hall & _).
  assert (chunkDuration cfg duration = duration) as HCd.
  { unfold chunkDuration. cbv zeta.
    now rewrite (proj2 (fle_true (ChunkDurationSec cfg) 0) HC). }
  rewrite HCd in Hlen, Hchain, Hall.
  assert (chunkStep duration = (duration - overlap)%Q) as HSt.
  { unfold chunkStep. cbv zeta.
    assert (fle (duration - overlap) 0 = false) as ->; [| reflexivity].
    apply fle_false. unfold overlap. lra. }
  rewrite HSt in Hlen, Hchain. unfold overlap in *.
  rewrite (Qceiling_between _ 2) in Hlen.
  2:{ apply Qlt_shift_div_l; [lra |]. change (inject_Z (2 - 1)) with 1%Q. lra. }
  2:{ apply Qle_shift_div_r; [lra |]. change (inject_Z 2) with 2%Q. lra. }
  destruct calls as [| c1 [| c2 [| c3 calls]]];
    try (unfold len in Hlen; cbn [length] in Hlen; lia).
  exists c1, c2. destruct Hchain as (Hc1 & Hc2 & _).
  apply Forall_cons in Hall as [(_ & Hd1 & _) Hall].
  apply Forall_cons in Hall as [(_ & Hd2 & _) _].
  split; [reflexivity |]. split; [exact Hc1 |].
  rewrite Hd1, Hd2. unfold chunk_dur_at. rewrite Hc2, Hc1.
  destruct (fgt (0 + duration) duration);
    destruct (fgt (0 + (duration - 5) + duration) duration) eqn:Hcut;
    try (apply fgt_false in Hcut; lra);
    (split; [ring |]); (split; ring).
Qed.

End DriverMore.

(** X18, witness: a file of duration 0 under the audiobook preset. *)
Lemma FingerprintAudioChunked_empty_audio_witness :
  FingerprintAudioChunked no_Cos no_FFT no_Abs probe_empty extract_any
    read_silence "book.mp3" 7 DefaultAudiobookConfig
  = ([], Ok ∅).
Proof.
  apply (FingerprintAudioChunked_empty_audio no_Cos no_FFT no_Abs probe_empty
           extract_any read_silence "book.mp3" 7 DefaultAudiobookConfig 0%Q).
  - reflexivity.
  - apply Qle_refl.
Defined.

(** X19, witness: the two chunks of a 200 s file under the audiobook
    preset. *)
Lemma FingerprintAudioChunked_chunks_in_file_witness :
  Forall (fun c => (0 <= c.1)%Q /\ (c.1 < 200)%Q /\ (0 < c.2)%Q /\
                   (c.2 <= chunkDuration DefaultAudiobookConfig 200)%Q /\
                   (c.1 + c.2 <= 200)%Q)
    [(0%Q, 120%Q); (115%Q, 85%Q)].
Proof.
  apply (FingerprintAudioChunked_chunks_in_file no_Cos no_FFT no_Abs probe_200
           extract_any read_silence "book.mp3" 7 DefaultAudiobookConfig 200%Q
           [(0%Q, 120%Q); (115%Q, 85%Q)] (Ok ∅)).
  - reflexivity.
  - vm_compute. reflexivity.
Defined.

(** X20, witness: the second chunk of that file starts inside the first
    and ends at 200 s. *)
Lemma FingerprintAudioChunked_covers_file_witness :
  ((0 < 115)%Q /\ (115 <= 0 + 120)%Q) /\
  exists c, last [(0%Q, 120%Q); (115%Q, 85%Q)] = Some c /\ (c.1 + c.2 == 200)%Q.
Proof.
  destruct (FingerprintAudioChunked_covers_file no_Cos no_FFT no_Abs probe_200
              extract_any read_silence "book.mp3" 7 DefaultAudiobookConfig 200%Q
              [(0%Q, 120%Q); (115%Q, 85%Q)] (Ok ∅))
    as (_ & Hnext & Hlast).
  - reflexivity.
  - vm_compute. reflexivity.
  - split.
    + exact (Hnext 0%nat (0%Q, 120%Q) (115%Q, 85%Q) eq_refl eq_refl).
    + apply (Hlast ∅ eq_refl). reflexivity.
Defined.

(** X21, witness: a 200 s file whose two chunks both yield address 1000;
    both were fingerprinted, and the map returned holds the anchor time
    of the second. *)
Lemma FingerprintAudioChunked_merge_witness :
  exists maps : list (gmap Z Couple),
    Forall2 (fun c cm =>
               processChunk no_Cos no_FFT no_Abs extract_any read_tone
                 "tone.wav" 7 tone_config c.1 c.2 = Ok cm)
      [(0%Q, 120%Q); (115%Q, 85%Q)] maps.
Proof.
  destruct (FingerprintAudioChunked_merge no_Cos no_FFT no_Abs probe_200
              extract_any read_tone "tone.wav" 7 tone_config
              [(0%Q, 120%Q); (115%Q, 85%Q)] {[ 1000 := mkCouple 115000 7 ]})
    as (maps & Hmaps & _).
  - vm_compute. reflexivity.
  - exists maps. exact Hmaps.
Defined.

(** X22, witness: the couple under address 1000 of that map. *)
Lemma FingerprintAudioChunked_song_id_witness :
  SongID (mkCouple 115000 7) = 7.
Proof.
  apply (FingerprintAudioChunked_song_id no_Cos no_FFT no_Abs probe_200
           extract_any read_tone "tone.wav" 7 tone_config
           [(0%Q, 120%Q); (115%Q, 85%Q)] {[ 1000 := mkCouple 115000 7 ]} 1000).
  - vm_compute. reflexivity.
  - reflexivity.
Defined.


(** X24, witness: a 200 s file under a config with chunk duration 0. *)
Lemma FingerprintAudioChunked_whole_file_witness :
  exists c1 c2,
    [(0%Q, 200%Q); (195%Q, 5%Q)] = [c1; c2] /\
    fst c1 = 0%Q /\ (snd c1 == 200)%Q /\
    (fst c2 == 200 - 5)%Q /\ (snd c2 == 5)%Q.
Proof.
  apply (FingerprintAudioChunked_whole_file no_Cos no_FFT no_Abs probe_200
           extract_any read_silence "song.mp3" 7 two_band_config 200%Q
           [(0%Q, 200%Q); (195%Q, 5%Q)] ∅).
  - apply Qle_refl.
  - reflexivity.
  - vm_compute. discriminate.
  - vm_compute. reflexivity.
Defined.

(** X25: FingerprintAudio, on a file of at most 295 s that it
    fingerprints to the end, hands the whole file to the transcoder as
    one chunk and returns the fingerprints of that chunk. *)
Theorem FingerprintAudio_short_file
    (math_Cos : float64 -> float64)
    (FFT : list float64 -> list (float64 * float64))
    (cmplx_Abs : float64 * float64 -> float64)
    (GetAudioDuration : string -> Result float64)
    (ExtractChunkAsWAV : string -> float64 -> float64 -> Result string)
    (ReadWavInfo : string -> Result WavInfo)
    (songFilePath : string) (songID : Z) (duration : float64)
    (calls : list (float64 * float64)) (m : gmap Z Couple) :
  GetAudioDuration songFilePath = Ok duration ->
  (0 < duration)%Q -> (duration <= 295)%Q ->
  FingerprintAudio math_Cos FFT cmplx_Abs GetAudioDuration ExtractChunkAsWAV
    ReadWavInfo songFilePath songID = (calls, Ok m) ->
  exists c,
    calls = [c] /\ fst c = 0%Q /\ (snd c == duration)%Q /\
    processChunk math_Cos FFT cmplx_Abs ExtractChunkAsWAV ReadWavInfo
      songFilePath songID DefaultMusicConfig (fst c) (snd c) = Ok m.
Proof.
  intros Hprobe Hpos Hshort Hrun. unfold FingerprintAudio in Hrun.
  pose proof (FingerprintAudioChunked_count _ _ _ _ _ _ _ _ _ _ _ _
                Hprobe Hpos Hrun) as Hlen.
  destruct (FingerprintAudioChunked_calls _ _ _ _ _ _ _ _ _ _ _ _ Hprobe Hrun)
    as (Hchain & Hall & Hok).
  destruct (Hok m eq_refl) as (maps & Hmaps & Hm & _).
  assert (chunkDuration DefaultMusicConfig duration = 300%Q) as HCd by reflexivity.
  rewrite HCd in Hlen, Hchain, Hall.
  assert (chunkStep 300 = 295%Q) as HSt by reflexivity.
  rewrite HSt in Hlen, Hchain.
  rewrite (Qceiling_between _ 1) in Hlen.
  2:{ apply Qlt_shift_div_l; [reflexivity |]. change (inject_Z (1 - 1)) with 0%Q. lra. }
  2:{ apply Qle_shift_div_r; [reflexivity |]. change (inject_Z 1) with 1%Q. lra. }
  destruct calls as [| c [| c2 calls]];
    try (unfold len in Hlen; cbn [length] in Hlen; lia).
  exists c. destruct Hchain as (Hc & _).
  apply Forall_cons in Hall as [(_ & Hd & _) _].
  apply Forall2_cons_inv_l in Hmaps as (cm & maps' & Hcm & Hnil & ->).
  apply Forall2_nil_inv_l in Hnil as ->.
  cbn [foldl] in Hm. unfold ExtendMap in Hm. rewrite (right_id_L ∅ (∪)) in Hm.
  subst m. split; [reflexivity |]. split; [exact Hc |]. split; [| exact Hcm].
  destruct c as [s d]. cbn [fst snd] in *. subst s d. unfold chunk_dur_at.
  destruct (fgt (0 + 300) duration) eqn:Hcut; [ring |].
  apply fgt_false in Hcut. lra.
Qed.

(** X25, witness: a 200 s file. *)
Lemma FingerprintAudio_short_file_witness :
  exists c,
    [(0%Q, 200%Q)] = [c] /\ fst c = 0%Q /\ (snd c == 200)%Q /\
    processChunk no_Cos no_FFT no_Abs extract_any read_silence
      "song.mp3" 7 DefaultMusicConfig (fst c) (snd c) = Ok ∅.
Proof.
  apply (FingerprintAudio_short_file no_Cos no_FFT no_Abs probe_200 extract_any
           read_silence "song.mp3" 7 200%Q [(0%Q, 200%Q)] ∅).
  - reflexivity.
  - reflexivity.
  - vm_compute. discriminate.
  - vm_compute. reflexivity.
Defined.
